(** * calculator.js: a shallow embedding of [src/scripts/calculator.js]

    The program is a pipeline over JavaScript strings, arrays and Numbers:
    [validateInput], [getArrayOfTokens], [fixParenthesesMultiplication],
    [fixNegativeNumbers], [convertToPostfix] and [evaluateExpression].

    - A JavaScript string is a sequence of UTF-16 code units: [list N].
    - A JavaScript Number is an IEEE 754 binary64 value: Rocq's primitive
      [float], whose [+ - * /] are the same correctly rounded operations.
    - An array is a [list]; indices are [Z] because the source reads
      [tokenArray[i-1]] at [i = 0], which is [undefined] ([None] here).
    - [throw new Error(..)] is the [Throws] outcome of [result]. *)

From Stdlib Require Import ZArith NArith List Bool Lia String Ascii.
From Stdlib Require Import PrimFloat FloatOps SpecFloat Uint63.
From Stdlib Require Import Permutation.
Import ListNotations.

Set Warnings "-inexact-float".
Local Open Scope Z_scope.

(** ** JavaScript strings *)

Module JS.

Definition char := N.
Definition jsstring := list char.

Definition chr (a : ascii) : char := N_of_ascii a.

(** An ASCII literal read as a JavaScript string. *)
Definition str (s : string) : jsstring := map chr (list_ascii_of_string s).

Fixpoint streq (s t : jsstring) : bool :=
  match s, t with
  | [], [] => true
  | c :: s', d :: t' => N.eqb c d && streq s' t'
  | _, _ => false
  end.

Fixpoint startsWith (s p : jsstring) : bool :=
  match p, s with
  | [], _ => true
  | c :: p', d :: s' => N.eqb c d && startsWith s' p'
  | _ :: _, [] => false
  end.

(** [s.includes(p)]: [p] occurs in [s] as a contiguous substring. *)
Fixpoint includes (s p : jsstring) : bool :=
  startsWith s p ||
  match s with
  | [] => false
  | _ :: s' => includes s' p
  end.

(** The regular expression class [\s]: WhiteSpace and LineTerminator code
    points of ECMAScript (TAB, LF, VT, FF, CR, SP, NBSP, the Zs category,
    LS, PS and the byte order mark). *)
Definition isWhiteSpace (c : char) : bool :=
  existsb (N.eqb c)
    [9; 10; 11; 12; 13; 32; 160; 5760; 8192; 8193; 8194; 8195; 8196; 8197;
     8198; 8199; 8200; 8201; 8202; 8232; 8233; 8239; 8287; 12288; 65279]%N.

(** [input.replace(/\s+/g, '')]: every run of white space is deleted. *)
Definition removeSpaces (input : jsstring) : jsstring :=
  filter (fun c => negb (isWhiteSpace c)) input.

Definition isDigit (c : char) : bool := (48 <=? c)%N && (c <=? 57)%N.

Fixpoint takeWhile (p : char -> bool) (s : jsstring) : jsstring :=
  match s with
  | c :: s' => if p c then c :: takeWhile p s' else []
  | [] => []
  end.

Fixpoint dropWhile (p : char -> bool) (s : jsstring) : jsstring :=
  match s with
  | c :: s' => if p c then dropWhile p s' else s
  | [] => []
  end.

Definition trim (s : jsstring) : jsstring :=
  rev (dropWhile isWhiteSpace (rev (dropWhile isWhiteSpace s))).

(** ** JavaScript Numbers *)

(** The double nearest to the positive rational [p / q], ties to even
    (the rounding of StringToNumber and of Number literals). *)
Definition roundToDouble (p q : Z) : float :=
  let scaled e := if 0 <=? e then p / (q * 2 ^ e) else (p * 2 ^ (- e)) / q in
  let e0 := Z.log2 p - Z.log2 q - 52 in
  let e1 := if scaled e0 <? 2 ^ 52 then e0 - 1 else e0 in
  let e := Z.max e1 (-1074) in
  let num := if 0 <=? e then p else p * 2 ^ (- e) in
  let den := if 0 <=? e then q * 2 ^ e else q in
  let m := num / den in
  let r := num mod den in
  let m' := match 2 * r ?= den with
            | Lt => m
            | Gt => m + 1
            | Eq => if Z.even m then m else m + 1
            end in
  if m' =? 0 then zero
  else if (971 <? e) || ((m' =? 2 ^ 53) && (e =? 971)) then infinity
  else SF2Prim (S754_finite false (Z.to_pos m') e).

Definition signed (neg : bool) (f : float) : float :=
  if neg then (- f)%float else f.

Definition digitsValue (base : Z) (digit : char -> Z) (ds : jsstring) : Z :=
  fold_left (fun acc c => base * acc + digit c) ds 0.

Definition decDigit (c : char) : Z := Z.of_N c - 48.

Definition isHexDigit (c : char) : bool :=
  isDigit c || ((97 <=? c)%N && (c <=? 102)%N) || ((65 <=? c)%N && (c <=? 70)%N).

Definition hexDigit (c : char) : Z :=
  if isDigit c then Z.of_N c - 48
  else if (97 <=? c)%N then Z.of_N c - 87 else Z.of_N c - 55.

(** StrUnsignedDecimalLiteral without [Infinity]:
    digits [. digits] [e [+-] digits], with a digit on one side of the
    point at least.  The result is the pair (mantissa, decimal exponent). *)
Definition parseExponent (s : jsstring) : option Z :=
  match s with
  | [] => Some 0
  | c :: s' =>
      if (c =? 101)%N || (c =? 69)%N then
        let '(neg, ds) :=
          match s' with
          | d :: s'' => if (d =? 45)%N then (true, s'')
                        else if (d =? 43)%N then (false, s'') else (false, s')
          | [] => (false, s')
          end in
        match ds with
        | [] => None
        | _ => if forallb isDigit ds
               then Some (if neg then - digitsValue 10 decDigit ds
                          else digitsValue 10 decDigit ds)
               else None
        end
      else None
  end.

Definition parseUnsignedDecimal (s : jsstring) : option (Z * Z) :=
  let ip := takeWhile isDigit s in
  let r := dropWhile isDigit s in
  let '(fp, r') :=
    match r with
    | c :: r1 => if (c =? 46)%N then (takeWhile isDigit r1, dropWhile isDigit r1)
                 else ([], r)
    | [] => ([], r)
    end in
  match ip ++ fp with
  | [] => None
  | ds =>
      match parseExponent r' with
      | Some e => Some (digitsValue 10 decDigit ds, e - Z.of_nat (List.length fp))
      | None => None
      end
  end.

Definition decimalToNumber (neg : bool) (s : jsstring) : float :=
  if streq s (str "Infinity") then signed neg infinity
  else match parseUnsignedDecimal s with
       | Some (m, e) =>
           if m =? 0 then signed neg zero
           else signed neg (if 0 <=? e then roundToDouble (m * 10 ^ e) 1
                            else roundToDouble m (10 ^ (- e)))
       | None => nan
       end.

(** NonDecimalIntegerLiteral: [0x], [0o] or [0b] (either case) and digits. *)
Definition nonDecimalToNumber (s : jsstring) : option float :=
  match s with
  | 48%N :: p :: ds =>
      let radix (base : Z) (ok : char -> bool) :=
        match ds with
        | [] => Some nan
        | _ => if forallb ok ds
               then let v := digitsValue base hexDigit ds in
                    Some (if v =? 0 then zero else roundToDouble v 1)
               else Some nan
        end in
      if (p =? 120)%N || (p =? 88)%N then radix 16 isHexDigit
      else if (p =? 111)%N || (p =? 79)%N
           then radix 8 (fun c => (48 <=? c)%N && (c <=? 55)%N)
      else if (p =? 98)%N || (p =? 66)%N
           then radix 2 (fun c => (48 <=? c)%N && (c <=? 49)%N)
      else None
  | _ => None
  end.

(** StringToNumber: the value [Number(s)] of a string. *)
Definition StringToNumber (s : jsstring) : float :=
  match trim s with
  | [] => zero
  | c :: t =>
      match nonDecimalToNumber (c :: t) with
      | Some f => f
      | None =>
          if (c =? 45)%N then decimalToNumber true t
          else if (c =? 43)%N then decimalToNumber false t
          else decimalToNumber false (c :: t)
      end
  end.

(** The decimal digits of a non-negative integer, most significant first. *)
Fixpoint digitsOfPos (fuel : nat) (n : Z) (acc : jsstring) : jsstring :=
  match fuel with
  | O => acc
  | S fuel' =>
      let acc' := Z.to_N (48 + n mod 10) :: acc in
      if n <? 10 then acc' else digitsOfPos fuel' (n / 10) acc'
  end.

Definition decimalDigits (n : Z) : jsstring :=
  digitsOfPos (S (Z.to_nat (Z.log2 n))) n [].

(** The integer [n] with [10^(n-1) <= p/q < 10^n], searched upwards from
    [lo]; a positive double lies between [10^-324] and [10^309]. *)
Fixpoint decimalExponent (fuel : nat) (p q : Z) (n : Z) : Z :=
  match fuel with
  | O => n
  | S fuel' =>
      if (if 0 <=? n then p <? q * 10 ^ n else p * 10 ^ (- n) <? q) then n
      else decimalExponent fuel' p q (n + 1)
  end.

(** Number::toString on a positive finite double [x = p / q]: the shortest
    digit string [s] (of [k] digits) and the exponent [n] for which
    [s * 10^(n-k)] reads back as [x]; among two such strings of the same
    length the one nearer to [x]. *)
Fixpoint shortestDigits (fuel : nat) (x : float) (p q n0 k : Z) : Z * Z :=
  let sc := n0 - k in
  let num := if 0 <=? sc then p else p * 10 ^ (- sc) in
  let den := if 0 <=? sc then q * 10 ^ sc else q in
  let lo := num / den in
  let hi := lo + 1 in
  let reads (s : Z) :=
    PrimFloat.eqb (if 0 <=? sc then roundToDouble (s * 10 ^ sc) 1
                   else roundToDouble s (10 ^ (- sc))) x in
  let pick s := if s =? 10 ^ k then (10 ^ (k - 1), n0 + 1) else (s, n0) in
  match fuel with
  | O => pick lo
  | S fuel' =>
      match reads lo, reads hi with
      | true, true =>
          match 2 * (num mod den) ?= den with
          | Lt => pick lo
          | Gt => pick hi
          | Eq => if Z.even lo then pick lo else pick hi
          end
      | true, false => pick lo
      | false, true => pick hi
      | false, false => shortestDigits fuel' x p q n0 (k + 1)
      end
  end.

Definition zeros (n : Z) : jsstring := repeat 48%N (Z.to_nat n).

Definition formatDigits (ds : jsstring) (n : Z) : jsstring :=
  let k := Z.of_nat (List.length ds) in
  if (k <=? n) && (n <=? 21) then ds ++ zeros (n - k)
  else if (0 <? n) && (n <=? 21)
       then firstn (Z.to_nat n) ds ++ str "." ++ skipn (Z.to_nat n) ds
  else if (-6 <? n) && (n <=? 0) then str "0." ++ zeros (- n) ++ ds
  else
    let e := n - 1 in
    let ex := (if e <? 0 then str "e-" else str "e+") ++ decimalDigits (Z.abs e) in
    match ds with
    | [d] => [d] ++ ex
    | d :: ds' => [d] ++ str "." ++ ds' ++ ex
    | [] => ex
    end.

(** [String(x)], Number::toString in radix 10. *)
Definition NumberToString (x : float) : jsstring :=
  match Prim2SF x with
  | S754_nan => str "NaN"
  | S754_zero _ => str "0"
  | S754_infinity neg => if neg then str "-Infinity" else str "Infinity"
  | S754_finite neg m e =>
      let p := if 0 <=? e then Zpos m * 2 ^ e else Zpos m in
      let q := if 0 <=? e then 1 else 2 ^ (- e) in
      let n0 := decimalExponent 640 p q (-324) in
      let '(s, n) := shortestDigits 17 (abs x) p q n0 1 in
      (if neg then str "-" else []) ++ formatDigits (decimalDigits s) n
  end.

(** [Math.round(x)]: the integer nearest to [x], a tie going up; NaN, the
    infinities and the zeros are returned as they are, and a result that
    rounds to zero keeps the sign of [x]. *)
Definition Math_round (x : float) : float :=
  match Prim2SF x with
  | S754_finite neg m e =>
      if 0 <=? e then x
      else
        let v := if neg then Zneg m else Zpos m in
        let d := 2 ^ (- e) in
        let r := (2 * v + d) / (2 * d) in
        if r =? 0 then signed neg zero
        else signed (r <? 0) (roundToDouble (Z.abs r) 1)
  | _ => x
  end.

End JS.

Export JS.

(** ** Values, arrays and outcomes *)

(** The values the program handles: array slots that hold a token (a
    string), results of arithmetic (a Number), and [undefined], which is
    what an out-of-range read and [pop()] on an empty array give. *)
Inductive value :=
| VUndefined
| VString (s : jsstring)
| VNumber (x : float).

Definition ToNumber (v : value) : float :=
  match v with
  | VUndefined => nan
  | VString s => StringToNumber s
  | VNumber x => x
  end.

(** [v === lit] for a string literal [lit]. *)
Definition strictEq (v : value) (lit : string) : bool :=
  match v with
  | VString s => streq s (str lit)
  | _ => false
  end.

Definition len {A} (a : list A) : Z := Z.of_nat (List.length a).

(** [a[i]]. *)
Definition elem (a : list jsstring) (i : Z) : value :=
  if i <? 0 then VUndefined
  else match nth_error a (Z.to_nat i) with
       | Some s => VString s
       | None => VUndefined
       end.

(** [a.splice(start, deleteCount, ...items)] for [0 <= start]. *)
Definition splice {A} (a : list A) (start deleteCount : Z) (items : list A)
  : list A :=
  firstn (Z.to_nat start) a ++ items ++ skipn (Z.to_nat (start + deleteCount)) a.

(** [a[i] = x] for [0 <= i < a.length]; both assignments of the program
    are made under a test that slot [i] holds a token. *)
Definition assign {A} (a : list A) (i : Z) (x : A) : list A :=
  firstn (Z.to_nat i) a ++ x :: skipn (Z.to_nat (i + 1)) a.

(** The two [Error]s the program throws, named by their messages
    ("Invalid Input", "Can not divide by zero."), and the TypeError of
    calling [operate[token]] when that is [undefined]. *)
Inductive error :=
| InvalidInput
| CanNotDivideByZero
| TypeError.

(** [Diverges]: the call does not return (a loop that never exits). *)
Inductive result (A : Type) :=
| Returns (a : A)
| Throws (e : error)
| Diverges.

Arguments Returns {A} a.
Arguments Throws {A} e.
Arguments Diverges {A}.

Definition bind {A B} (r : result A) (k : A -> result B) : result B :=
  match r with
  | Returns a => k a
  | Throws e => Throws e
  | Diverges => Diverges
  end.

Notation "x <- r ;; k" := (bind r (fun x => k))
  (at level 61, r at next level, right associativity).
Notation "' p <- r ;; k" := (bind r (fun x => let p := x in k))
  (at level 61, p pattern, r at next level, right associativity).

(** ** The program *)

(** [const isOperator = element => '*/-+()'.includes(element)] *)
Definition isOperator (element : jsstring) : bool :=
  includes (str "*/-+()") element.

(** [const isNumber = element => !isNaN(element)] *)
Definition isNumber (element : value) : bool :=
  negb (is_nan (ToNumber element)).

(** *** validateInput *)

(** The first loop of [validateInput].  [for (chr of input)] walks code
    points; a code point outside the basic plane is two code units, neither
    of which is a parenthesis, so walking code units counts the same. *)
Fixpoint checkParentheses (input : jsstring) (parenthesesTracker : Z)
  : result Z :=
  match input with
  | [] => Returns parenthesesTracker
  | chr :: rest =>
      if (chr =? 40)%N then checkParentheses rest (parenthesesTracker + 1)
      else if (chr =? 41)%N then
        let parenthesesTracker := parenthesesTracker - 1 in
        if parenthesesTracker <? 0 then Throws InvalidInput
        else checkParentheses rest parenthesesTracker
      else checkParentheses rest parenthesesTracker
  end.

(** The second loop.  A code point of two code units is not a substring of
    [allowedElements], and neither is any of its halves. *)
Fixpoint checkElements (allowedElements inputWithoutSpaces : jsstring)
  : result unit :=
  match inputWithoutSpaces with
  | [] => Returns tt
  | char :: rest =>
      if negb (includes allowedElements [char]) then Throws InvalidInput
      else checkElements allowedElements rest
  end.

Definition validateInput (input : jsstring) : result unit :=
  parenthesesTracker <- checkParentheses input 0 ;;
  if negb (parenthesesTracker =? 0) then Throws InvalidInput
  else
    let inputWithoutSpaces := removeSpaces input in
    let allowedElements := str "1234567890.()*/-+" in
    checkElements allowedElements inputWithoutSpaces.

(** *** getArrayOfTokens *)

(** The inner [while] loop.  [rest] is [inputArray] from index [i+1] on;
    the result is the token and what is left of the array after it. *)
Fixpoint scanNumber (currToken rest : jsstring) : result (jsstring * jsstring) :=
  match rest with
  | next :: rest' =>
      if negb (isOperator [next]) then
        if includes currToken (str ".") && (next =? 46)%N
        then Throws InvalidInput
        else scanNumber (currToken ++ [next]) rest'
      else Returns (currToken, rest)
  | [] => Returns (currToken, rest)
  end.

(** [currToken.charAt(currToken.length-1) === '.'] *)
Definition endsWithPoint (currToken : jsstring) : bool :=
  match rev currToken with
  | c :: _ => (c =? 46)%N
  | [] => false
  end.

(** The [for] loop over [inputArray], which is read and never written:
    [inputArray] here is the part from index [i] on.  Every round consumes
    a character at least, so [fuel = inputArray.length] rounds are enough
    ([tokensLoop_returns]). *)
Fixpoint tokensLoop (fuel : nat) (inputArray : jsstring)
  (tokenArray : list jsstring) : result (list jsstring) :=
  match inputArray with
  | [] => Returns tokenArray
  | c :: rest =>
      match fuel with
      | O => Diverges
      | S fuel' =>
          let currToken := [c] in
          if isOperator currToken
          then tokensLoop fuel' rest (tokenArray ++ [currToken])
          else
            '(currToken, rest') <- scanNumber currToken rest ;;
            if endsWithPoint currToken then Throws InvalidInput
            else tokensLoop fuel' rest' (tokenArray ++ [currToken])
      end
  end.

Definition getArrayOfTokens (input : jsstring) : result (list jsstring) :=
  let inputWithoutSpaces := removeSpaces input in
  let inputArray := inputWithoutSpaces in
  tokensLoop (List.length inputArray) inputArray [].

(** *** fixParenthesesMultiplication *)

(** The [for] loop, with the array it splices in place.  [None]: the loop
    did not finish within [fuel] rounds. *)
Fixpoint fixParenthesesLoop (fuel : nat) (i : Z) (tokenArray : list jsstring)
  : option (list jsstring) :=
  if i <? len tokenArray - 1 then
    match fuel with
    | O => None
    | S fuel' =>
        if strictEq (elem tokenArray i) ")" && strictEq (elem tokenArray (i + 1)) "(" then
          fixParenthesesLoop fuel' (i + 1) (splice tokenArray (i + 1) 0 [str "*"])
        else if strictEq (elem tokenArray i) "(" && isNumber (elem tokenArray (i - 1)) then
          fixParenthesesLoop fuel' (i + 1 + 1) (splice tokenArray i 0 [str "*"])
        else if strictEq (elem tokenArray i) ")" && isNumber (elem tokenArray (i + 1)) then
          fixParenthesesLoop fuel' (i + 1) (splice tokenArray (i + 1) 0 [str "*"])
        else fixParenthesesLoop fuel' (i + 1) tokenArray
    end
  else Some tokenArray.

(** Two rounds for each token are enough ([fixParenthesesLoop_finishes]). *)
Definition fixParenthesesMultiplication (tokenArray : list jsstring)
  : list jsstring :=
  match fixParenthesesLoop (2 * List.length tokenArray) 1 tokenArray with
  | Some tokenArray' => tokenArray'
  | None => tokenArray
  end.

(** *** fixNegativeNumbers *)

(** [String(-1 * x)] *)
Definition negated (x : value) : jsstring :=
  NumberToString (-1 * ToNumber x)%float.

Fixpoint fixNegativeLoop (fuel : nat) (i : Z) (tokenArray : list jsstring)
  : option (list jsstring) :=
  if i <? len tokenArray then
    match fuel with
    | O => None
    | S fuel' =>
        if strictEq (elem tokenArray i) "-" && strictEq (elem tokenArray (i + 1)) "(" then
          let tokenArray := assign tokenArray i (str "-1") in
          let tokenArray := splice tokenArray (i + 1) 0 [str "*"] in
          if isNumber (elem tokenArray (i - 1))
          then fixNegativeLoop fuel' (i + 1 + 1) (splice tokenArray i 0 [str "+"])
          else fixNegativeLoop fuel' (i + 1) tokenArray
        else if strictEq (elem tokenArray i) "-" && isNumber (elem tokenArray (i + 1)) then
          let tokenArray :=
            assign tokenArray (i + 1) (negated (elem tokenArray (i + 1))) in
          let tokenArray := splice tokenArray i 1 [] in
          if isNumber (elem tokenArray (i - 1)) || strictEq (elem tokenArray (i - 1)) ")"
          then fixNegativeLoop fuel' (i + 1) (splice tokenArray i 0 [str "+"])
          else fixNegativeLoop fuel' (i + 1) tokenArray
        else fixNegativeLoop fuel' (i + 1) tokenArray
    end
  else Some tokenArray.

(** Two rounds for each token are enough ([fixNegativeLoop_finishes]). *)
Definition fixNegativeNumbers (tokenArray : list jsstring) : list jsstring :=
  match fixNegativeLoop (2 * List.length tokenArray) 0 tokenArray with
  | Some tokenArray' => tokenArray'
  | None => tokenArray
  end.

(** *** convertToPostfix *)

(** The [precedence] table; a key it does not have reads [undefined]. *)
Definition precedence (key : jsstring) : option Z :=
  if streq key (str "(") then Some 1
  else if streq key (str "+") then Some 2
  else if streq key (str "-") then Some 2
  else if streq key (str "*") then Some 3
  else if streq key (str "/") then Some 3
  else None.

(** [x >= y] on table entries: false when either is [undefined]. *)
Definition geq (x y : option Z) : bool :=
  match x, y with
  | Some a, Some b => b <=? a
  | _, _ => false
  end.

(** [operatorStack] is used as a stack only ([push], [pop], [peek],
    [length]): a list whose head is the top. *)

(** The [)] branch: pop to the output until [(] is popped.  On an
    exhausted stack [pop()] is [undefined], which is not [(], for ever. *)
Fixpoint popToParenthesis (operatorStack postfixArray : list jsstring)
  : result (list jsstring * list jsstring) :=
  match operatorStack with
  | [] => Diverges
  | currToken :: operatorStack' =>
      if streq currToken (str "(") then Returns (operatorStack', postfixArray)
      else popToParenthesis operatorStack' (postfixArray ++ [currToken])
  end.

(** The last branch: pop to the output while the top's precedence is at
    least the token's. *)
Fixpoint popPrecedence (token : jsstring) (operatorStack postfixArray : list jsstring)
  : list jsstring * list jsstring :=
  match operatorStack with
  | [] => (operatorStack, postfixArray)
  | top :: operatorStack' =>
      if geq (precedence top) (precedence token)
      then popPrecedence token operatorStack' (postfixArray ++ [top])
      else (operatorStack, postfixArray)
  end.

Fixpoint postfixLoop (tokenArray operatorStack postfixArray : list jsstring)
  : result (list jsstring) :=
  match tokenArray with
  | [] => Returns (postfixArray ++ operatorStack)
  | token :: rest =>
      if negb (isOperator token) then
        postfixLoop rest operatorStack (postfixArray ++ [token])
      else if streq token (str "(") then
        postfixLoop rest (token :: operatorStack) postfixArray
      else if streq token (str ")") then
        '(operatorStack, postfixArray) <-
          popToParenthesis operatorStack postfixArray ;;
        postfixLoop rest operatorStack postfixArray
      else
        let '(operatorStack, postfixArray) :=
          popPrecedence token operatorStack postfixArray in
        postfixLoop rest (token :: operatorStack) postfixArray
  end.

(** The token array handed to the shunting-yard loop. *)
Definition normalizedTokens (input : jsstring) : result (list jsstring) :=
  tokens <- getArrayOfTokens input ;;
  Returns (fixNegativeNumbers (fixParenthesesMultiplication tokens)).

Definition convertToPostfix (input : jsstring) : result (list jsstring) :=
  tokenArray <- normalizedTokens input ;;
  postfixLoop tokenArray [] [].

(** *** evaluateExpression *)

(** [x === 0]: a Number equal to zero (of either sign); a string is not. *)
Definition isZeroNumber (x : value) : bool :=
  match x with
  | VNumber n => (n =? 0)%float
  | _ => false
  end.

(** The [operate] table: [operate[token]] called on [(x, y)]; [None] where
    the table has no entry. *)
Definition operate (token : jsstring) : option (value -> value -> result float) :=
  if streq token (str "+")
  then Some (fun x y => Returns (ToNumber x + ToNumber y)%float)
  else if streq token (str "-")
  then Some (fun x y => Returns (ToNumber y - ToNumber x)%float)
  else if streq token (str "*")
  then Some (fun x y => Returns (ToNumber x * ToNumber y)%float)
  else if streq token (str "/")
  then Some (fun x y =>
               if isZeroNumber x then Throws CanNotDivideByZero
               else Returns (ToNumber y / ToNumber x)%float)
  else None.

(** [postfixStack] is a list whose head is the top (the last element of
    the JavaScript array); [postfixStack[0]] is then its last element. *)
Definition pop (postfixStack : list value) : value * list value :=
  match postfixStack with
  | [] => (VUndefined, [])
  | v :: postfixStack' => (v, postfixStack')
  end.

Definition bottom (postfixStack : list value) : value :=
  last postfixStack VUndefined.

Fixpoint evaluateLoop (postfixArray : list jsstring) (postfixStack : list value)
  : result (list value) :=
  match postfixArray with
  | [] => Returns postfixStack
  | token :: rest =>
      if isOperator token then
        let operation := operate token in
        let '(elementOne, postfixStack) := pop postfixStack in
        let '(elementTwo, postfixStack) := pop postfixStack in
        match operation with
        | None => Throws TypeError
        | Some operation =>
            r <- operation elementOne elementTwo ;;
            evaluateLoop rest (VNumber r :: postfixStack)
        end
      else evaluateLoop rest (VString token :: postfixStack)
  end.

(** [solution => Number(Math.round(solution * 10000) / 10000)] *)
Definition roundedSolution (solution : value) : float :=
  (Math_round (ToNumber solution * 10000) / 10000)%float.

Definition evaluateExpression (input : jsstring) : result float :=
  _ <- validateInput input ;;
  postfixArray <- convertToPostfix input ;;
  postfixStack <- evaluateLoop postfixArray [] ;;
  let solution := roundedSolution (bottom postfixStack) in
  if negb (len postfixStack =? 1) || negb (isNumber (VNumber solution))
  then Throws InvalidInput
  else Returns solution.

(** * Notions used in the statements and proofs *)

(** ** For the validator and the tokenizer *)

(** The parenthesis nesting count after reading [s]. *)
Fixpoint nesting (s : jsstring) : Z :=
  match s with
  | [] => 0
  | c :: s' =>
      (if (c =? 40)%N then 1 else if (c =? 41)%N then -1 else 0) + nesting s'
  end.

(** A digit, the decimal point, or one of [+ - * / ( )]. *)
Definition allowedCharacter (c : char) : Prop :=
  (48 <= c <= 57)%N \/ c = 46%N \/
  c = 43%N \/ c = 45%N \/ c = 42%N \/ c = 47%N \/ c = 40%N \/ c = 41%N.

(** The three grounds of rejection: the nesting goes negative at some
    point of the scan, or it is not zero at the end, or a character that
    is left after white space is stripped is not allowed. *)
Definition rejected (input : jsstring) : Prop :=
  (exists n, nesting (firstn n input) < 0) \/
  nesting input <> 0 \/
  (exists c, In c (removeSpaces input) /\ ~ allowedCharacter c).

(** The number of decimal points of a string. *)
Definition points (s : jsstring) : nat := count_occ N.eq_dec s 46%N.

(** The inner loop gives up at a second decimal point. *)
Definition secondPoint (currToken run : jsstring) : bool :=
  ((1 <=? points currToken) && (1 <=? points run) || (2 <=? points run))%nat.

Definition operatorFree (run : jsstring) : Prop :=
  Forall (fun c => isOperator [c] = false) run.

(** Nothing, or a string that starts with an operator character. *)
Definition startsWithOperator (post : jsstring) : Prop :=
  match post with
  | [] => True
  | c :: _ => isOperator [c] = true
  end.

(** Nothing, or a string that ends with an operator character. *)
Definition endsWithOperator (pre : jsstring) : Prop :=
  pre = [] \/ exists pre' o, pre = pre' ++ [o] /\ isOperator [o] = true.

(** ** The normalizing loops seen from the scan position

    Both loops keep an index [i] into an array that they splice around
    [i].  With the tokens before [i] in [done] (nearest first) and the
    tokens from [i] on in [rest], the array is [rev done ++ rest] and [i]
    is [len done]; [parenthesesZip] and [negativeZip] are the two loops
    on that pair ([fixParenthesesLoop_zip], [fixNegativeLoop_zip]). *)

(** [tokenArray[i-1]]: the nearest token before the scan position. *)
Definition before (done : list jsstring) : value :=
  match done with
  | p :: _ => VString p
  | [] => VUndefined
  end.

Fixpoint parenthesesZip (fuel : nat) (done rest : list jsstring)
  : option (list jsstring) :=
  match rest with
  | x :: y :: rest' =>
      match fuel with
      | O => None
      | S fuel' =>
          if streq x (str ")") && streq y (str "(") then
            parenthesesZip fuel' (x :: done) (str "*" :: y :: rest')
          else if streq x (str "(") && isNumber (before done) then
            parenthesesZip fuel' (x :: str "*" :: done) (y :: rest')
          else if streq x (str ")") && isNumber (VString y) then
            parenthesesZip fuel' (x :: done) (str "*" :: y :: rest')
          else parenthesesZip fuel' (x :: done) (y :: rest')
      end
  | _ => Some (rev done ++ rest)
  end.

(** [tokenArray[i+1]] seen from the tokens after position [i]. *)
Definition next (rest : list jsstring) : value :=
  match rest with
  | y :: _ => VString y
  | [] => VUndefined
  end.

Fixpoint negativeZip (fuel : nat) (done rest : list jsstring)
  : option (list jsstring) :=
  match rest with
  | x :: rest1 =>
      match fuel with
      | O => None
      | S fuel' =>
          if streq x (str "-") && strictEq (next rest1) "(" then
            if isNumber (before done)
            then negativeZip fuel' (str "-1" :: str "+" :: done) (str "*" :: rest1)
            else negativeZip fuel' (str "-1" :: done) (str "*" :: rest1)
          else if streq x (str "-") && isNumber (next rest1) then
            if isNumber (before done) || strictEq (before done) ")"
            then negativeZip fuel' (str "+" :: done) (negated (next rest1) :: tl rest1)
            else negativeZip fuel' (negated (next rest1) :: done) (tl rest1)
          else negativeZip fuel' (x :: done) rest1
      end
  | [] => Some (rev done)
  end.

(** A bound on the rounds that are left: two for each token, one less
    when the scan position is on a [*]. *)
Definition weight (rest : list jsstring) : nat :=
  match rest with
  | x :: rest' =>
      if streq x (str "*") then 2 * List.length rest' + 1
      else 2 * List.length rest' + 2
  | [] => 0
  end.

(** ** For the normalized tokens *)

(** A string that starts with a character other than [-]. *)
Definition startsOtherThanMinus (s : jsstring) : Prop :=
  match s with
  | c :: _ => c <> 45%N
  | [] => False
  end.

(** Every [-] token is directly followed by [(] or by a number. *)
Fixpoint everyMinusFollowed (tokenArray : list jsstring) : bool :=
  match tokenArray with
  | x :: rest =>
      (negb (streq x (str "-")) || strictEq (next rest) "(" || isNumber (next rest))
      && everyMinusFollowed rest
  | [] => true
  end.

(** The three adjacency patterns: [)(], a number and [(], [)] and a number. *)
Definition adjacent (x y : jsstring) : bool :=
  streq x (str ")") && streq y (str "(")
  || isNumber (VString x) && streq y (str "(")
  || streq x (str ")") && isNumber (VString y).

(** Implicit multiplication as the specification words it: a [*] is put
    between two adjacent tokens of one of the three patterns. *)
Fixpoint specInsertMultiplication (tokenArray : list jsstring) : list jsstring :=
  match tokenArray with
  | x :: rest =>
      x :: (match rest with
            | y :: _ => if adjacent x y then [str "*"] else []
            | [] => []
            end) ++ specInsertMultiplication rest
  | [] => []
  end.

(** What the loop does from a scan position on.  At a token [x] it looks
    back for a number before [(] ([previousNumber]: the token before [x]
    is a number) and forward for [)] before [(] or a number; the last
    token is not looked at. *)
Fixpoint insertFrom (previousNumber : bool) (rest : list jsstring)
  : list jsstring :=
  match rest with
  | x :: rest' =>
      match rest' with
      | y :: _ =>
          let afterwards :=
            streq x (str ")") && (streq y (str "(") || isNumber (VString y)) in
          (if streq x (str "(") && previousNumber then [str "*"] else [])
          ++ x :: (if afterwards then [str "*"] else [])
          ++ insertFrom (if afterwards then false else isNumber (VString x)) rest'
      | [] => [x]
      end
  | [] => []
  end.

(** The token after which nothing comes. *)
Definition lastToken (tokenArray : list jsstring) : value :=
  elem tokenArray (len tokenArray - 1).

(** ** For the properties of the pipeline *)

(** An operator token: one character, an operator or a parenthesis. *)
Definition operatorToken (t : jsstring) : Prop :=
  exists c, t = [c] /\ isOperator [c] = true.

(** A number token: characters that are not operators, one decimal point
    at most and none at the end. *)
Definition numberToken (t : jsstring) : Prop :=
  t <> [] /\ operatorFree t /\ (points t <= 1)%nat /\ endsWithPoint t = false.

(** No two number tokens stand side by side. *)
Fixpoint numbersApart (tokens : list jsstring) : Prop :=
  match tokens with
  | x :: rest =>
      match rest with
      | y :: _ => operatorToken x \/ operatorToken y
      | [] => True
      end /\ numbersApart rest
  | [] => True
  end.

(** A stretch of characters between operators (or the ends of the string)
    that has two decimal points or ends in one. *)
Definition malformedRun (s : jsstring) : Prop :=
  exists pre run post,
    s = pre ++ run ++ post /\
    endsWithOperator pre /\ startsWithOperator post /\
    run <> [] /\ operatorFree run /\
    ((2 <= points run)%nat \/ endsWithPoint run = true).

(** A string that starts with a character other than an operator or a
    parenthesis. *)
Definition startsPlain (s : jsstring) : Prop :=
  match s with
  | c :: _ => isOperator [c] = false
  | [] => False
  end.

(** A token that [isOperator] accepts only if it is one of the six
    one-character strings. *)
Definition plainToken (t : jsstring) : Prop :=
  isOperator t = true ->
  In t [str "+"; str "-"; str "*"; str "/"; str "("; str ")"].

Definition isParenthesis (t : jsstring) : bool :=
  streq t (str "(") || streq t (str ")").

(** The parentheses of a token array, in order. *)
Definition parentheses (tokenArray : list jsstring) : list jsstring :=
  filter isParenthesis tokenArray.

(** The parentheses of a token array match: read from left to right with
    [depth] parentheses open, no [)] comes without a [(] open and none is
    open at the end. *)
Fixpoint balanced (depth : nat) (tokenArray : list jsstring) : bool :=
  match tokenArray with
  | [] => Nat.eqb depth 0
  | t :: rest =>
      if streq t (str "(") then balanced (S depth) rest
      else if streq t (str ")") then
        match depth with
        | O => false
        | S depth' => balanced depth' rest
        end
      else balanced depth rest
  end.

(** The number of [(] on the operator stack. *)
Definition opened (operatorStack : list jsstring) : nat :=
  List.length (filter (fun t => streq t (str "(")) operatorStack).

Definition noParenthesis (tokenArray : list jsstring) : Prop :=
  Forall (fun t => isParenthesis t = false) tokenArray.

(** A token that [isOperator] does not accept: an operand. *)
Definition isOperand (t : jsstring) : bool := negb (isOperator t).

(** The tokens of an array other than the parentheses. *)
Definition withoutParentheses (tokenArray : list jsstring) : list jsstring :=
  filter (fun t => negb (isParenthesis t)) tokenArray.

(** * Properties *)

(** ** Evaluations of the specification's examples *)

(** C4: unary and binary minus are folded by [fixNegativeNumbers]: a [-]
    before a number goes into the number and a [-] before [(] becomes
    [-1 *].  "5-3" is 2, "-5+3" is -2, "5--3" is 8, "-(2+3)" is -5 and
    "5-(2+3)" is 0. *)
Theorem minus_folding_examples :
  normalizedTokens (str "5-3") = Returns [str "5"; str "+"; str "-3"] /\
  normalizedTokens (str "-5+3") = Returns [str "-5"; str "+"; str "3"] /\
  normalizedTokens (str "5--3") = Returns [str "5"; str "-"; str "-3"] /\
  normalizedTokens (str "-(2+3)") =
    Returns [str "-1"; str "*"; str "("; str "2"; str "+"; str "3"; str ")"] /\
  normalizedTokens (str "5-(2+3)") =
    Returns [str "5"; str "+"; str "-1"; str "*";
             str "("; str "2"; str "+"; str "3"; str ")"] /\
  evaluateExpression (str "5-3") = Returns 2%float /\
  evaluateExpression (str "-5+3") = Returns (-2)%float /\
  evaluateExpression (str "5--3") = Returns 8%float /\
  evaluateExpression (str "-(2+3)") = Returns (-5)%float /\
  evaluateExpression (str "5-(2+3)") = Returns 0%float.
Proof. repeat split; vm_compute; reflexivity. Qed.

(** ** Strings *)

Lemma streq_eq (s t : jsstring) : streq s t = true <-> s = t.
Proof.
  revert t; induction s as [|c s IH]; intros [|d t]; simpl;
    try (split; [discriminate | congruence]); try tauto.
  rewrite andb_true_iff, N.eqb_eq, IH.
  split; [intros [-> ->]; reflexivity | intros [= -> ->]; tauto].
Qed.

Lemma streq_refl (s : jsstring) : streq s s = true.
Proof. apply streq_eq; reflexivity. Qed.

Lemma streq_neq (s t : jsstring) : s <> t -> streq s t = false.
Proof.
  intros H; destruct (streq s t) eqn:E; [|reflexivity].
  apply streq_eq in E; contradiction.
Qed.

(** [s.includes(c)] for a single character is membership. *)
Lemma includes_char (s : jsstring) (c : char) :
  includes s [c] = existsb (N.eqb c) s.
Proof.
  induction s as [|d s IH]; [reflexivity|].
  simpl includes; simpl existsb; rewrite IH.
  destruct s; rewrite andb_true_r; reflexivity.
Qed.

Lemma includes_char_In (s : jsstring) (c : char) :
  includes s [c] = true <-> In c s.
Proof.
  rewrite includes_char, existsb_exists; split.
  - intros (d & Hd & E); apply N.eqb_eq in E; subst; exact Hd.
  - intros H; exists c; split; [exact H | apply N.eqb_refl].
Qed.

(** ** The validator *)

Lemma checkParentheses_cases (input : jsstring) :
  forall t, 0 <= t ->
    (checkParentheses input t = Throws InvalidInput /\
     exists n, t + nesting (firstn n input) < 0) \/
    (checkParentheses input t = Returns (t + nesting input) /\
     forall n, 0 <= t + nesting (firstn n input)).
Proof.
  induction input as [|c rest IH]; intros t Ht.
  - right; split; [simpl; f_equal; lia|].
    intros n; rewrite firstn_nil; simpl; lia.
  - simpl checkParentheses; simpl nesting.
    destruct (c =? 40)%N eqn:E40.
    + destruct (IH (t + 1) ltac:(lia)) as [[H (n & Hn)] | [H Hall]].
      * left; split; [exact H|].
        exists (S n); simpl; rewrite E40; lia.
      * right; split; [rewrite H; f_equal; lia|].
        intros [|n]; simpl; [lia|]; rewrite E40; specialize (Hall n); lia.
    + destruct (c =? 41)%N eqn:E41.
      * destruct (t - 1 <? 0) eqn:Eneg.
        -- left; split; [reflexivity|].
           exists 1%nat; simpl; rewrite E40, E41.
           apply Z.ltb_lt in Eneg; lia.
        -- apply Z.ltb_ge in Eneg.
           destruct (IH (t - 1) Eneg) as [[H (n & Hn)] | [H Hall]].
           ++ left; split; [exact H|].
              exists (S n); simpl; rewrite E40, E41; lia.
           ++ right; split; [rewrite H; f_equal; lia|].
              intros [|n]; simpl; [lia|].
              rewrite E40, E41; specialize (Hall n); lia.
      * destruct (IH t Ht) as [[H (n & Hn)] | [H Hall]].
        -- left; split; [exact H|].
           exists (S n); simpl; rewrite E40, E41; lia.
        -- right; split; [rewrite H; f_equal; lia|].
           intros [|n]; simpl; [lia|].
           rewrite E40, E41; specialize (Hall n); lia.
Qed.

Lemma checkElements_cases (allowed s : jsstring) :
  (checkElements allowed s = Throws InvalidInput /\
   exists c, In c s /\ includes allowed [c] = false) \/
  (checkElements allowed s = Returns tt /\
   forall c, In c s -> includes allowed [c] = true).
Proof.
  induction s as [|c rest IH]; simpl.
  - right; split; [reflexivity | intros c []].
  - destruct (includes allowed [c]) eqn:E; simpl.
    + destruct IH as [[H (d & Hd & Hx)] | [H Hall]].
      * left; split; [exact H | exists d; auto].
      * right; split; [exact H|].
        intros d [<- | Hd]; auto.
    + left; split; [reflexivity | exists c; auto].
Qed.

Lemma allowedElements_spec (c : char) :
  includes (str "1234567890.()*/-+") [c] = true <-> allowedCharacter c.
Proof.
  rewrite includes_char; unfold allowedCharacter; cbn.
  rewrite !orb_true_iff, !N.eqb_eq; lia.
Qed.

Lemma validateInput_cases (input : jsstring) :
  (validateInput input = Throws InvalidInput /\ rejected input) \/
  (validateInput input = Returns tt /\ ~ rejected input).
Proof.
  unfold validateInput, rejected.
  destruct (checkParentheses_cases input 0 ltac:(lia)) as [[H (n & Hn)] | [H Hall]];
    rewrite H; simpl.
  - left; split; [reflexivity | left; exists n; lia].
  - destruct (nesting input =? 0) eqn:E0; simpl.
    + apply Z.eqb_eq in E0.
      destruct (checkElements_cases (str "1234567890.()*/-+") (removeSpaces input))
        as [[H' (c & Hc & Hx)] | [H' Hall']].
      * left; split; [exact H'|].
        right; right; exists c; split; [exact Hc|].
        rewrite <- allowedElements_spec, Hx; discriminate.
      * right; split; [exact H'|].
        intros [(n & Hn) | [Hne | (c & Hc & Hx)]].
        -- specialize (Hall n); lia.
        -- contradiction.
        -- apply Hx, allowedElements_spec, Hall', Hc.
    + apply Z.eqb_neq in E0.
      left; split; [reflexivity | right; left; exact E0].
Qed.

(** C7: the validator fails with "Invalid Input" exactly when the
    parenthesis nesting goes negative at some point of the scan, or is
    not zero at the end of the string, or some character left after white
    space is stripped is not a digit, a decimal point or one of
    [+ - * / ( )]; on every other input it returns.  "(1+2)" evaluates,
    "(1+2" and "1+2)" fail with "Invalid Input". *)
Theorem validateInput_spec :
  (forall input, rejected input <-> validateInput input = Throws InvalidInput) /\
  (forall input, ~ rejected input -> validateInput input = Returns tt) /\
  evaluateExpression (str "(1+2)") = Returns 3%float /\
  evaluateExpression (str "(1+2") = Throws InvalidInput /\
  evaluateExpression (str "1+2)") = Throws InvalidInput.
Proof.
  split; [|split; [|repeat split; vm_compute; reflexivity]].
  - intros input; destruct (validateInput_cases input) as [[H R] | [H R]];
      rewrite H; split; auto; try discriminate; contradiction.
  - intros input NR; destruct (validateInput_cases input) as [[H R] | [H R]];
      [contradiction | exact H].
Qed.

Lemma validateInput_spec_witness :
  rejected (str "(1+2") /\ validateInput (str "(1+2") = Throws InvalidInput.
Proof.
  assert (R : rejected (str "(1+2")).
  { right; left; vm_compute; discriminate. }
  split; [exact R | exact (proj1 (proj1 validateInput_spec (str "(1+2")) R)].
Defined.

(** ** The tokenizer *)

Lemma points_app (s t : jsstring) : points (s ++ t) = (points s + points t)%nat.
Proof. apply count_occ_app. Qed.

Lemma points_cons (c : char) (s : jsstring) :
  points (c :: s) = ((if (c =? 46)%N then 1 else 0) + points s)%nat.
Proof.
  unfold points; simpl.
  destruct (N.eq_dec c 46) as [-> | Hne]; [reflexivity|].
  apply N.eqb_neq in Hne; rewrite Hne; reflexivity.
Qed.

Lemma includes_point (s : jsstring) :
  includes s (str ".") = (1 <=? points s)%nat.
Proof.
  change (str ".") with [46%N].
  destruct (1 <=? points s)%nat eqn:E.
  - apply Nat.leb_le in E.
    apply includes_char_In, (count_occ_In N.eq_dec); exact E.
  - apply Nat.leb_gt in E.
    destruct (includes s [46%N]) eqn:I; [|reflexivity].
    apply includes_char_In, (count_occ_In N.eq_dec) in I.
    unfold points in E; lia.
Qed.

Lemma scanNumber_run (run : jsstring) :
  forall currToken post,
    operatorFree run -> startsWithOperator post ->
    scanNumber currToken (run ++ post) =
    if secondPoint currToken run then Throws InvalidInput
    else Returns (currToken ++ run, post).
Proof.
  unfold secondPoint.
  induction run as [|c run IH]; intros cur post Hfree Hpost.
  - simpl app at 1; rewrite app_nil_r.
    replace (points []) with 0%nat by reflexivity.
    rewrite andb_false_r; simpl.
    destruct post as [|d post]; [reflexivity|].
    simpl in Hpost; simpl; rewrite Hpost; reflexivity.
  - inversion Hfree as [|? ? Hc Hrun]; subst.
    simpl app; simpl scanNumber; rewrite Hc; simpl negb; cbv iota.
    rewrite includes_point, (points_cons c run).
    destruct (c =? 46)%N eqn:E46.
    + destruct (1 <=? points cur)%nat eqn:Ecur; simpl.
      * reflexivity.
      * rewrite (IH (cur ++ [c]) post Hrun Hpost), points_app, points_cons, E46.
        rewrite <- app_assoc; simpl app.
        change (points []) with 0%nat.
        apply Nat.leb_gt in Ecur.
        replace (points cur) with 0%nat by lia.
        destruct (points run) as [|[|n]]; reflexivity.
    + rewrite andb_false_r.
      rewrite (IH (cur ++ [c]) post Hrun Hpost), points_app, points_cons, E46.
      change (points []) with 0%nat.
      rewrite <- app_assoc, !Nat.add_0_r; reflexivity.
Qed.

Lemma scanNumber_concat (rest : jsstring) :
  forall currToken token rest',
    scanNumber currToken rest = Returns (token, rest') ->
    currToken ++ rest = token ++ rest' /\
    (List.length rest' <= List.length rest)%nat.
Proof.
  induction rest as [|c rest IH]; intros cur token rest' H; simpl in H.
  - injection H as <- <-; split; [reflexivity | lia].
  - destruct (isOperator [c]); simpl in H.
    + injection H as <- <-; split; [reflexivity | lia].
    + destruct (includes cur (str ".") && (c =? 46)%N); [discriminate|].
      apply IH in H; destruct H as [H L]; rewrite <- app_assoc in H.
      split; [exact H | simpl; lia].
Qed.

Lemma scanNumber_no_loop (rest currToken : jsstring) :
  scanNumber currToken rest <> Diverges.
Proof.
  revert currToken; induction rest as [|c rest IH]; intros cur; simpl.
  - discriminate.
  - destruct (isOperator [c]); simpl; [discriminate|].
    destruct (includes cur (str ".") && (c =? 46)%N); [discriminate | apply IH].
Qed.

(** [inputArray.length] rounds are enough: the [for] loop always ends. *)
Lemma tokensLoop_returns (fuel : nat) :
  forall inputArray tokenArray,
    (List.length inputArray <= fuel)%nat ->
    tokensLoop fuel inputArray tokenArray <> Diverges.
Proof.
  induction fuel as [|fuel IH]; intros s acc L.
  - destruct s; [discriminate | simpl in L; lia].
  - destruct s as [|c rest]; [discriminate|].
    simpl in L; simpl tokensLoop.
    destruct (isOperator [c]); [apply IH; lia|].
    destruct (scanNumber [c] rest) as [[tok rest']| |] eqn:E; simpl;
      try discriminate.
    + destruct (endsWithPoint tok); [discriminate|].
      apply scanNumber_concat in E; apply IH; lia.
    + exfalso; exact (scanNumber_no_loop _ _ E).
Qed.

Lemma getArrayOfTokens_ends (input : jsstring) :
  getArrayOfTokens input <> Diverges.
Proof. apply tokensLoop_returns; lia. Qed.

Lemma tokensLoop_concat (fuel : nat) :
  forall inputArray tokenArray tokens,
    tokensLoop fuel inputArray tokenArray = Returns tokens ->
    List.concat tokens = List.concat tokenArray ++ inputArray.
Proof.
  induction fuel as [|fuel IH]; intros s acc tokens H.
  - destruct s; [|discriminate].
    injection H as <-; rewrite app_nil_r; reflexivity.
  - destruct s as [|c rest].
    + injection H as <-; rewrite app_nil_r; reflexivity.
    + simpl in H. destruct (isOperator [c]).
      * apply IH in H; rewrite H, concat_app; simpl.
        rewrite <- app_assoc; reflexivity.
      * destruct (scanNumber [c] rest) as [[tok rest']| |] eqn:E; simpl in H;
          try discriminate.
        destruct (endsWithPoint tok); [discriminate|].
        apply IH in H; apply scanNumber_concat in E; destruct E as [E _].
        rewrite H, concat_app; simpl.
        rewrite app_nil_r, <- app_assoc, <- E; reflexivity.
Qed.

(** C10: when [getArrayOfTokens] returns, the tokens concatenated in
    order are the input with all white space removed. *)
Theorem tokens_partition_input (input : jsstring) (tokens : list jsstring) :
  getArrayOfTokens input = Returns tokens ->
  List.concat tokens = removeSpaces input.
Proof.
  unfold getArrayOfTokens; intros H.
  apply tokensLoop_concat in H; exact H.
Qed.

Lemma tokens_partition_input_witness :
  List.concat [str "12.5"; str "+"; str "("; str "3"; str ")"] =
  removeSpaces (str " 12.5 + (3)").
Proof.
  apply (tokens_partition_input (str " 12.5 + (3)")).
  vm_compute; reflexivity.
Defined.

Lemma endsWithOperator_suffix (l1 l2 : jsstring) :
  endsWithOperator (l1 ++ l2) -> endsWithOperator l2.
Proof.
  intros [H | (pre & o & H & Ho)].
  - apply app_eq_nil in H; left; tauto.
  - destruct l2 as [|d l2]; [left; reflexivity|].
    destruct (@exists_last _ (d :: l2) ltac:(discriminate)) as (l2' & x & E).
    right; exists l2', x; split; [exact E|].
    rewrite E, app_assoc in H; apply app_inj_tail in H.
    destruct H as [_ ->]; exact Ho.
Qed.

Lemma split_at_operator (l : jsstring) :
  l <> [] -> endsWithOperator l ->
  exists run o tail,
    l = run ++ o :: tail /\ operatorFree run /\ isOperator [o] = true.
Proof.
  induction l as [|c l IH]; intros Hne Hend; [contradiction|].
  destruct (isOperator [c]) eqn:Ec.
  - exists [], c, l; repeat split; [constructor | exact Ec].
  - destruct l as [|d l].
    + destruct Hend as [H | (pre & o & H & Ho)]; [discriminate|].
      destruct pre as [|? [|? ?]]; try discriminate.
      injection H as ->; congruence.
    + destruct IH as (run & o & tail & E & Hfree & Ho); [discriminate | |].
      { apply (endsWithOperator_suffix [c]); exact Hend. }
      exists (c :: run), o, tail; rewrite E; repeat split; [|exact Ho].
      constructor; assumption.
Qed.

(** The loop walks over a prefix that ends with an operator character and
    arrives at the rest of the array, unless it has thrown before. *)
Lemma tokensLoop_prefix (fuel : nat) :
  forall pre rest tokenArray,
    (List.length (pre ++ rest) <= fuel)%nat -> endsWithOperator pre ->
    tokensLoop fuel (pre ++ rest) tokenArray = Throws InvalidInput \/
    exists fuel' tokenArray',
      (List.length rest <= fuel')%nat /\
      tokensLoop fuel (pre ++ rest) tokenArray = tokensLoop fuel' rest tokenArray'.
Proof.
  induction fuel as [|fuel IH]; intros pre rest acc L Hend.
  - right; exists 0%nat, acc.
    destruct pre; [split; [exact L | reflexivity] | simpl in L; lia].
  - destruct pre as [|c pre].
    + right; exists (S fuel), acc; split; [exact L | reflexivity].
    + simpl in L; simpl app; simpl tokensLoop.
      destruct (isOperator [c]) eqn:Ec.
      * apply IH; [lia|].
        apply (endsWithOperator_suffix [c]); exact Hend.
      * destruct (split_at_operator (c :: pre)) as (run & o & tail & E & Hfree & Ho);
          [discriminate | exact Hend |].
        destruct run as [|c' run]; simpl in E; injection E as <- E; [congruence|].
        inversion Hfree as [|? ? _ Hrun]; subst pre.
        rewrite <- app_assoc; simpl app.
        rewrite (scanNumber_run run [c] (o :: tail ++ rest) Hrun Ho).
        destruct (secondPoint [c] run); [left; reflexivity|]; simpl bind.
        destruct (endsWithPoint (c :: run)); [left; reflexivity|].
        apply (IH (o :: tail) rest).
        -- rewrite !length_app in L; simpl in L |- *; rewrite length_app; lia.
        -- apply (endsWithOperator_suffix (c :: run)); exact Hend.
Qed.

Lemma tokensLoop_bad_run (fuel : nat) (run post : jsstring)
  (tokenArray : list jsstring) :
  (List.length (run ++ post) <= fuel)%nat ->
  run <> [] -> operatorFree run -> startsWithOperator post ->
  (2 <= points run)%nat \/ endsWithPoint run = true ->
  tokensLoop fuel (run ++ post) tokenArray = Throws InvalidInput.
Proof.
  intros L Hne Hfree Hpost Hbad.
  destruct run as [|c run]; [contradiction|].
  destruct fuel as [|fuel]; [simpl in L; lia|].
  inversion Hfree as [|? ? Hc Hrun]; subst.
  simpl app; simpl tokensLoop; rewrite Hc.
  rewrite (scanNumber_run run [c] post Hrun Hpost).
  destruct (secondPoint [c] run) eqn:E2; [reflexivity|]; simpl bind.
  destruct Hbad as [Hbad | ->]; [|reflexivity].
  exfalso; revert E2 Hbad; unfold secondPoint.
  rewrite !points_cons; change (points []) with 0%nat.
  destruct (c =? 46)%N, (points run) as [|[|n]]; simpl; (discriminate || lia).
Qed.

(** C8: the tokenizer fails with "Invalid Input" when a number token
    would hold two decimal points or would end in a decimal point.  The
    would-be token is [run]: a maximal stretch of characters, none of them
    an operator or a parenthesis, in the input stripped of white space.
    "1.5+2.25" is 3.75; "1..5" and "1.+2" fail with "Invalid Input". *)
Theorem malformed_number_rejected :
  (forall input pre run post,
     removeSpaces input = pre ++ run ++ post ->
     endsWithOperator pre -> startsWithOperator post ->
     run <> [] -> operatorFree run ->
     (2 <= points run)%nat \/ endsWithPoint run = true ->
     getArrayOfTokens input = Throws InvalidInput) /\
  evaluateExpression (str "1.5+2.25") = Returns 3.75%float /\
  evaluateExpression (str "1..5") = Throws InvalidInput /\
  evaluateExpression (str "1.+2") = Throws InvalidInput.
Proof.
  split; [|repeat split; vm_compute; reflexivity].
  intros input pre run post E Hpre Hpost Hne Hfree Hbad.
  unfold getArrayOfTokens; rewrite E.
  destruct (tokensLoop_prefix (List.length (pre ++ run ++ post)) pre (run ++ post) [])
    as [H | (fuel' & acc' & L & H)]; [lia | exact Hpre | exact H |].
  rewrite H; apply tokensLoop_bad_run; assumption.
Qed.

Lemma malformed_number_rejected_witness :
  getArrayOfTokens (str "2 * 1.5.5 + 3") = Throws InvalidInput.
Proof.
  apply (proj1 malformed_number_rejected (str "2 * 1.5.5 + 3")
           (str "2*") (str "1.5.5") (str "+3")).
  - reflexivity.
  - right; exists (str "2"), 42%N; split; reflexivity.
  - reflexivity.
  - discriminate.
  - repeat constructor.
  - left; vm_compute; lia.
Defined.

(** ** The converter *)

Lemma popPrecedence_spec (token : jsstring) (popped : list jsstring) :
  forall operatorStack postfixArray,
    Forall (fun top => geq (precedence top) (precedence token) = true) popped ->
    match operatorStack with
    | [] => True
    | top :: _ => geq (precedence top) (precedence token) = false
    end ->
    popPrecedence token (popped ++ operatorStack) postfixArray =
    (operatorStack, postfixArray ++ popped).
Proof.
  induction popped as [|top popped IH]; intros stack out Hge Hlt.
  - rewrite app_nil_r; destruct stack as [|top stack]; simpl; [reflexivity|].
    rewrite Hlt; reflexivity.
  - inversion Hge as [|? ? Htop Hrest]; subst.
    simpl; rewrite Htop, (IH stack (out ++ [top]) Hrest Hlt), <- app_assoc.
    reflexivity.
Qed.

(** C5: on an operator the converter pops the stack to the output while
    the top's precedence is greater than or equal to the operator's, and
    pushes the operator ([popped] is what is popped: every entry has a
    precedence at least the token's, and the entry under it, when there is
    one, has not).  "2+3*4" is 14, "(2+3)*4" is 20 and "10-3-2" is 5. *)
Theorem converter_pops_by_precedence :
  (forall token rest popped operatorStack postfixArray,
     In token [str "+"; str "-"; str "*"; str "/"] ->
     Forall (fun top => geq (precedence top) (precedence token) = true) popped ->
     match operatorStack with
     | [] => True
     | top :: _ => geq (precedence top) (precedence token) = false
     end ->
     postfixLoop (token :: rest) (popped ++ operatorStack) postfixArray =
     postfixLoop rest (token :: operatorStack) (postfixArray ++ popped)) /\
  evaluateExpression (str "2+3*4") = Returns 14%float /\
  evaluateExpression (str "(2+3)*4") = Returns 20%float /\
  evaluateExpression (str "10-3-2") = Returns 5%float.
Proof.
  split; [|repeat split; vm_compute; reflexivity].
  intros token rest popped stack out Hop Hge Hlt.
  assert (E : isOperator token = true /\ streq token (str "(") = false /\
              streq token (str ")") = false).
  { simpl in Hop; destruct Hop as [<- | [<- | [<- | [<- | []]]]];
      repeat split; reflexivity. }
  destruct E as (E1 & E2 & E3).
  simpl postfixLoop; rewrite E1, E2, E3; simpl negb; cbv iota.
  rewrite (popPrecedence_spec token popped stack out Hge Hlt); reflexivity.
Qed.

(** In "a-b*c+d" read up to [+]: the stack holds [*] over [-], both of
    precedence at least that of [+], and both are popped. *)
Lemma converter_pops_by_precedence_witness :
  postfixLoop [str "+"; str "4"] ([str "*"; str "-"] ++ [str "("]) [str "1"; str "2"; str "3"] =
  postfixLoop [str "4"] [str "+"; str "("] ([str "1"; str "2"; str "3"] ++ [str "*"; str "-"]).
Proof.
  apply (proj1 converter_pops_by_precedence).
  - left; reflexivity.
  - repeat constructor.
  - reflexivity.
Defined.

(** ** The evaluator *)

(** C9: a result that is returned is the value left on the stack times
    10000, rounded to the nearest integer, divided by 10000; "1/3" is
    0.3333. *)
Theorem result_is_rounded :
  (forall input solution,
     evaluateExpression input = Returns solution ->
     exists postfixArray unrounded,
       convertToPostfix input = Returns postfixArray /\
       evaluateLoop postfixArray [] = Returns [unrounded] /\
       solution = (Math_round (ToNumber unrounded * 10000) / 10000)%float) /\
  evaluateExpression (str "1/3") = Returns 0.3333%float.
Proof.
  split; [|vm_compute; reflexivity].
  intros input solution; unfold evaluateExpression.
  destruct (validateInput input); simpl; try discriminate.
  destruct (convertToPostfix input) as [postfixArray| |]; simpl; try discriminate.
  destruct (evaluateLoop postfixArray []) as [postfixStack| |] eqn:E; simpl;
    try discriminate.
  destruct postfixStack as [|unrounded [|v l]].
  - change (len (@nil value) =? 1) with false; cbn [negb orb].
    intros H; discriminate H.
  - change (len [unrounded] =? 1) with true; simpl negb; simpl orb.
    destruct (negb (isNumber _)); [discriminate|].
    intros [= <-]; exists postfixArray, unrounded; repeat split; exact E.
  - replace (len (unrounded :: v :: l) =? 1) with false;
      [cbn [negb orb]; intros H; discriminate H|].
    symmetry; apply Z.eqb_neq; unfold len; simpl List.length; lia.
Qed.

Lemma result_is_rounded_witness :
  exists postfixArray unrounded,
    convertToPostfix (str "2/3") = Returns postfixArray /\
    evaluateLoop postfixArray [] = Returns [unrounded] /\
    0.6667%float = (Math_round (ToNumber unrounded * 10000) / 10000)%float.
Proof.
  apply (proj1 result_is_rounded (str "2/3")).
  vm_compute; reflexivity.
Defined.

(** [operate['/']] throws exactly on a first argument that is a Number
    equal to zero; a token, which is a string, is never that. *)
Lemma operate_division_throws (x y : value) :
  exists division,
    operate (str "/") = Some division /\
    (division x y = Throws CanNotDivideByZero <->
     exists n, x = VNumber n /\ (n =? 0)%float = true).
Proof.
  eexists; split; [reflexivity|]; cbv beta.
  destruct x as [|s|n]; simpl.
  - split; [discriminate | intros (n & H & _); discriminate].
  - split; [discriminate | intros (n & H & _); discriminate].
  - destruct (n =? 0)%float eqn:E.
    + split; [exists n; auto | reflexivity].
    + split; [discriminate | intros (m & [= <-] & H); congruence].
Qed.

(** C1: "5/0" does not fail: the divisor popped from the stack is the
    token "0", a string, and [x === 0] is false for it, so the quotient,
    Infinity, is returned.  A divisor that was computed, as in "5/(1-1)",
    is a Number and does make the evaluation fail with "Can not divide by
    zero.". *)
Theorem division_by_zero_token :
  convertToPostfix (str "5/0") = Returns [str "5"; str "0"; str "/"] /\
  evaluateExpression (str "5/0") = Returns infinity /\
  evaluateExpression (str "5/(1-1)") = Throws CanNotDivideByZero.
Proof. repeat split; vm_compute; reflexivity. Qed.

Lemma disallowed_character_rejected (input : jsstring) (c : char) :
  In c (removeSpaces input) -> ~ allowedCharacter c ->
  evaluateExpression input = Throws InvalidInput.
Proof.
  intros Hc Hno; unfold evaluateExpression.
  destruct (validateInput_cases input) as [[H _] | [_ R]].
  - rewrite H; reflexivity.
  - exfalso; apply R; right; right; exists c; auto.
Qed.

(** C3: "(1)-(2)" passes the validator and is normalized to
    [( 1 ) -1 * ( 2 )]: the [+] that joins a folded [-(] to what is before
    it is inserted after a number only, not after [)], so two values are
    left on the stack and the evaluation fails with "Invalid Input".  The
    branch that folds [-] into a number does insert it after [)]:
    "(1)-2" is -1. *)
Theorem parenthesised_minuend_fails :
  validateInput (str "(1)-(2)") = Returns tt /\
  normalizedTokens (str "(1)-(2)") =
    Returns [str "("; str "1"; str ")"; str "-1"; str "*"; str "("; str "2"; str ")"] /\
  evaluateExpression (str "(1)-(2)") = Throws InvalidInput /\
  evaluateExpression (str "(1)-2") = Returns (-1)%float.
Proof. repeat split; vm_compute; reflexivity. Qed.

(** ** Arrays read and spliced at a scan position *)

Lemma len_cons {A} (x : A) (l : list A) : len (x :: l) = len l + 1.
Proof. unfold len; simpl List.length; lia. Qed.

Lemma len_app {A} (l1 l2 : list A) : len (l1 ++ l2) = len l1 + len l2.
Proof. unfold len; rewrite length_app; lia. Qed.

Lemma len_rev {A} (l : list A) : len (rev l) = len l.
Proof. unfold len; rewrite length_rev; reflexivity. Qed.

Lemma len_nonneg {A} (l : list A) : 0 <= len l.
Proof. unfold len; lia. Qed.

Lemma to_nat_len_plus {A} (l : list A) (k : Z) :
  0 <= k -> Z.to_nat (len l + k) = (List.length l + Z.to_nat k)%nat.
Proof. unfold len; lia. Qed.

Lemma elem_app (l1 l2 : list jsstring) (k : Z) :
  0 <= k -> elem (l1 ++ l2) (len l1 + k) = elem l2 k.
Proof.
  intros Hk; unfold elem.
  pose proof (len_nonneg l1).
  replace (len l1 + k <? 0) with false by (symmetry; apply Z.ltb_ge; lia).
  replace (k <? 0) with false by (symmetry; apply Z.ltb_ge; lia).
  rewrite to_nat_len_plus, nth_error_app2 by lia.
  replace (List.length l1 + Z.to_nat k - List.length l1)%nat with (Z.to_nat k) by lia.
  reflexivity.
Qed.

Lemma splice_app {A} (l1 l2 : list A) (k d : Z) (items : list A) :
  0 <= k -> 0 <= d ->
  splice (l1 ++ l2) (len l1 + k) d items = l1 ++ splice l2 k d items.
Proof.
  intros Hk Hd; unfold splice.
  replace (len l1 + k + d) with (len l1 + (k + d)) by lia.
  rewrite !to_nat_len_plus by lia.
  rewrite firstn_app_2, skipn_app, skipn_all2 by lia.
  replace (List.length l1 + Z.to_nat (k + d) - List.length l1)%nat
    with (Z.to_nat (k + d)) by lia.
  rewrite <- app_assoc; reflexivity.
Qed.

Lemma assign_app {A} (l1 l2 : list A) (k : Z) (x : A) :
  0 <= k -> assign (l1 ++ l2) (len l1 + k) x = l1 ++ assign l2 k x.
Proof.
  intros Hk; unfold assign.
  replace (len l1 + k + 1) with (len l1 + (k + 1)) by lia.
  rewrite !to_nat_len_plus by lia.
  rewrite firstn_app_2, skipn_app, skipn_all2 by lia.
  replace (List.length l1 + Z.to_nat (k + 1) - List.length l1)%nat
    with (Z.to_nat (k + 1)) by lia.
  rewrite <- app_assoc; reflexivity.
Qed.

Section ScanPosition.

Variables done rest : list jsstring.

Lemma len_zip : len (rev done ++ rest) = len done + len rest.
Proof. rewrite len_app, len_rev; reflexivity. Qed.

Lemma elem_zip (k : Z) :
  0 <= k -> elem (rev done ++ rest) (len done + k) = elem rest k.
Proof. intros Hk; rewrite <- (len_rev done); apply elem_app; exact Hk. Qed.

Lemma elem_zip_here : elem (rev done ++ rest) (len done) = elem rest 0.
Proof.
  replace (len done) with (len done + 0) by lia; apply elem_zip; lia.
Qed.

Lemma elem_zip_before : elem (rev done ++ rest) (len done - 1) = before done.
Proof.
  destruct done as [|p done'].
  - reflexivity.
  - simpl rev; rewrite <- app_assoc, len_cons.
    replace (len done' + 1 - 1) with (len (rev done') + 0)
      by (rewrite len_rev; lia).
    rewrite elem_app by lia; reflexivity.
Qed.

Lemma splice_zip (k d : Z) (items : list jsstring) :
  0 <= k -> 0 <= d ->
  splice (rev done ++ rest) (len done + k) d items =
  rev done ++ splice rest k d items.
Proof. intros; rewrite <- (len_rev done); apply splice_app; assumption. Qed.

Lemma splice_zip_here (d : Z) (items : list jsstring) :
  0 <= d ->
  splice (rev done ++ rest) (len done) d items =
  rev done ++ splice rest 0 d items.
Proof.
  intros; replace (len done) with (len done + 0) by lia.
  apply splice_zip; lia.
Qed.

Lemma assign_zip (k : Z) (x : jsstring) :
  0 <= k ->
  assign (rev done ++ rest) (len done + k) x = rev done ++ assign rest k x.
Proof. intros; rewrite <- (len_rev done); apply assign_app; assumption. Qed.

Lemma assign_zip_here (x : jsstring) :
  assign (rev done ++ rest) (len done) x = rev done ++ assign rest 0 x.
Proof.
  replace (len done) with (len done + 0) by lia; apply assign_zip; lia.
Qed.

End ScanPosition.

Lemma zip_step (done : list jsstring) (x : jsstring) (rest : list jsstring) :
  rev done ++ x :: rest = rev (x :: done) ++ rest.
Proof. simpl; rewrite <- app_assoc; reflexivity. Qed.

(** *** The loop of [fixParenthesesMultiplication] at a scan position *)

Ltac len_arith := unfold len; simpl List.length; lia.

Ltac decide_bound b :=
  match goal with
  | |- context [?i <? ?n] =>
      replace (i <? n) with b
        by (symmetry; first [apply Z.ltb_ge | apply Z.ltb_lt]; len_arith)
  end.

Lemma fixParenthesesLoop_zip (fuel : nat) :
  forall done rest,
    fixParenthesesLoop fuel (len done) (rev done ++ rest) =
    parenthesesZip fuel done rest.
Proof.
  induction fuel as [|fuel IH]; intros done rest.
  - destruct rest as [|x [|y rest]]; simpl; rewrite len_zip.
    + decide_bound false; reflexivity.
    + decide_bound false; reflexivity.
    + decide_bound true; reflexivity.
  - destruct rest as [|x [|y rest]]; simpl fixParenthesesLoop; simpl parenthesesZip;
      rewrite len_zip.
    + decide_bound false; reflexivity.
    + decide_bound false; reflexivity.
    + decide_bound true.
      rewrite elem_zip_here, elem_zip_before, elem_zip by lia.
      rewrite splice_zip, splice_zip_here by lia.
      change (elem (x :: y :: rest) 0) with (VString x).
      change (elem (x :: y :: rest) 1) with (VString y).
      change (splice (x :: y :: rest) 1 0 [str "*"]) with (x :: str "*" :: y :: rest).
      change (splice (x :: y :: rest) 0 0 [str "*"]) with (str "*" :: x :: y :: rest).
      unfold strictEq.
      rewrite (zip_step done x (str "*" :: y :: rest)).
      rewrite (zip_step done (str "*") (x :: y :: rest)),
              (zip_step (str "*" :: done) x (y :: rest)).
      rewrite (zip_step done x (y :: rest)).
      rewrite <- !IH, !len_cons.
      reflexivity.
Qed.

(** *** The loop of [fixNegativeNumbers] at a scan position *)

Lemma fixNegativeLoop_zip (fuel : nat) :
  forall done rest,
    fixNegativeLoop fuel (len done) (rev done ++ rest) =
    negativeZip fuel done rest.
Proof.
  induction fuel as [|fuel IH]; intros done rest.
  - destruct rest as [|x rest]; simpl; rewrite len_zip.
    + decide_bound false; rewrite app_nil_r; reflexivity.
    + decide_bound true; reflexivity.
  - destruct rest as [|x rest1]; simpl fixNegativeLoop; simpl negativeZip;
      rewrite len_zip.
    + decide_bound false; rewrite app_nil_r; reflexivity.
    + decide_bound true.
      rewrite elem_zip_here, elem_zip by lia.
      rewrite assign_zip_here, splice_zip, elem_zip_before by lia.
      rewrite splice_zip_here by lia.
      change (elem (x :: rest1) 0) with (VString x).
      replace (elem (x :: rest1) 1) with (next rest1) by (destruct rest1; reflexivity).
      change (strictEq (VString x) "-") with (streq x (str "-")).
      change (splice (splice (assign (x :: rest1) 0 (str "-1")) 1 0 [str "*"]) 0 0 [str "+"])
        with (str "+" :: str "-1" :: str "*" :: rest1).
      change (splice (assign (x :: rest1) 0 (str "-1")) 1 0 [str "*"])
        with (str "-1" :: str "*" :: rest1).
      destruct (streq x (str "-") && strictEq (next rest1) "(").
      { rewrite (zip_step done (str "+")), !(zip_step _ (str "-1")).
        rewrite <- !IH, !len_cons; reflexivity. }
      destruct (streq x (str "-") && isNumber (next rest1)) eqn:E.
      { destruct rest1 as [|y rest2].
        { rewrite andb_comm in E; discriminate. }
        rewrite assign_zip, splice_zip_here, elem_zip_before by lia.
        rewrite splice_zip_here by lia.
        simpl next; simpl tl.
        change (splice (splice (assign (x :: y :: rest2) 1 (negated (VString y))) 0 1 []) 0 0 [str "+"])
          with (str "+" :: negated (VString y) :: rest2).
        change (splice (assign (x :: y :: rest2) 1 (negated (VString y))) 0 1 [])
          with (negated (VString y) :: rest2).
        rewrite (zip_step done (str "+")), (zip_step done (negated (VString y))).
        rewrite <- !IH, !len_cons; reflexivity. }
      rewrite (zip_step done x), <- IH, len_cons; reflexivity.
Qed.

(** *** Both loops finish

    A round either moves the scan position forward or leaves it on a [*]
    that was just inserted, and the round after that moves on: two rounds
    for each token are enough. *)

Lemma weight_le (rest : list jsstring) : (weight rest <= 2 * List.length rest)%nat.
Proof.
  destruct rest as [|x rest]; simpl; [lia|].
  destruct (streq x (str "*")); lia.
Qed.

Lemma weight_cons (x : jsstring) (rest : list jsstring) :
  (2 * List.length rest + 1 <= weight (x :: rest))%nat.
Proof. simpl; destruct (streq x (str "*")); lia. Qed.

Lemma weight_times (rest : list jsstring) :
  weight (str "*" :: rest) = (2 * List.length rest + 1)%nat.
Proof. reflexivity. Qed.

Lemma weight_other (x : jsstring) (rest : list jsstring) :
  streq x (str "*") = false ->
  weight (x :: rest) = (2 * List.length rest + 2)%nat.
Proof. intros E; simpl; rewrite E; reflexivity. Qed.

Lemma streq_other (x : jsstring) (a b : string) :
  streq (str a) (str b) = false -> streq x (str a) = true -> streq x (str b) = false.
Proof. intros Hab Hx; apply streq_eq in Hx; subst; exact Hab. Qed.

Lemma parenthesesZip_finishes (fuel : nat) :
  forall done rest,
    (weight rest <= fuel)%nat -> exists r, parenthesesZip fuel done rest = Some r.
Proof.
  induction fuel as [|fuel IH]; intros done rest W.
  - destruct rest as [|x [|y rest]]; simpl; eauto.
    pose proof (weight_cons x (y :: rest)); simpl List.length in *; lia.
  - destruct rest as [|x [|y rest]]; simpl parenthesesZip; eauto.
    pose proof (weight_le (y :: rest)) as Wy; simpl List.length in Wy.
    pose proof (weight_cons x (y :: rest)) as Wx; simpl List.length in Wx.
    destruct (streq x (str ")")) eqn:Ex.
    + assert (Wx' := weight_other x (y :: rest)
                (streq_other x ")" "*" eq_refl Ex)).
      simpl List.length in Wx'.
      replace (streq x (str "(")) with false
        by (symmetry; exact (streq_other x ")" "(" eq_refl Ex)).
      simpl andb.
      destruct (streq y (str "(")); [|destruct (isNumber (VString y))];
        apply IH; rewrite ?weight_times; simpl List.length; lia.
    + simpl andb.
      destruct (streq x (str "(") && isNumber (before done)); apply IH; lia.
Qed.

Lemma fixParenthesesLoop_finishes (tokenArray : list jsstring) :
  exists r, fixParenthesesLoop (2 * List.length tokenArray) 1 tokenArray = Some r.
Proof.
  destruct tokenArray as [|a0 rest]; [exists []; reflexivity|].
  change 1 with (len [a0]); change (a0 :: rest) with (rev [a0] ++ rest) at 2.
  rewrite fixParenthesesLoop_zip; apply parenthesesZip_finishes.
  pose proof (weight_le rest); simpl List.length; lia.
Qed.

Lemma negativeZip_finishes (fuel : nat) :
  forall done rest,
    (weight rest <= fuel)%nat -> exists r, negativeZip fuel done rest = Some r.
Proof.
  induction fuel as [|fuel IH]; intros done rest W.
  - destruct rest as [|x rest]; simpl; eauto.
    pose proof (weight_cons x rest); lia.
  - destruct rest as [|x rest1]; simpl negativeZip; eauto.
    pose proof (weight_le rest1) as W1.
    pose proof (weight_cons x rest1) as Wx.
    destruct (streq x (str "-")) eqn:Ex; simpl andb.
    + assert (Wx' := weight_other x rest1 (streq_other x "-" "*" eq_refl Ex)).
      destruct (strictEq (next rest1) "(").
      { destruct (isNumber (before done)); apply IH; rewrite weight_times; lia. }
      destruct (isNumber (next rest1)) eqn:En; [|apply IH; lia].
      destruct rest1 as [|y rest2]; [discriminate|]; simpl tl; simpl next.
      simpl List.length in *.
      pose proof (weight_le (negated (VString y) :: rest2)) as Wn.
      pose proof (weight_le rest2) as W2.
      simpl List.length in Wn.
      destruct (isNumber (before done) || strictEq (before done) ")");
        apply IH; lia.
    + apply IH; lia.
Qed.

Lemma fixNegativeLoop_finishes (tokenArray : list jsstring) :
  exists r, fixNegativeLoop (2 * List.length tokenArray) 0 tokenArray = Some r.
Proof.
  change 0 with (len (@nil jsstring)).
  change tokenArray with (rev [] ++ tokenArray) at 2.
  rewrite fixNegativeLoop_zip; apply negativeZip_finishes, weight_le.
Qed.

(** ** The tokens left by [fixNegativeNumbers] *)

(** [String(x)] is never the string "-": it starts with a digit, or with
    [-] and then a digit, or is one of NaN, Infinity, -Infinity. *)

Lemma digitsOfPos_digits (fuel : nat) :
  forall n acc,
    Forall (fun c => c <> 45%N) acc ->
    Forall (fun c => c <> 45%N) (digitsOfPos fuel n acc).
Proof.
  induction fuel as [|fuel IH]; intros n acc Hacc; cbn [digitsOfPos];
    [exact Hacc|].
  assert (Hd : Z.to_N (48 + n mod 10) <> 45%N).
  { pose proof (Z.mod_pos_bound n 10 ltac:(lia)); lia. }
  destruct (n <? 10); [|apply IH]; (constructor; [exact Hd | exact Hacc]).
Qed.

Lemma digitsOfPos_nonempty (fuel : nat) :
  forall n acc, acc <> [] -> digitsOfPos fuel n acc <> [].
Proof.
  induction fuel as [|fuel IH]; intros n acc Hacc; cbn [digitsOfPos];
    [exact Hacc|].
  destruct (n <? 10); [discriminate | apply IH; discriminate].
Qed.

Lemma decimalDigits_head (n : Z) : startsOtherThanMinus (decimalDigits n).
Proof.
  assert (H : forall l : jsstring,
             l <> [] -> Forall (fun c => c <> 45%N) l -> startsOtherThanMinus l).
  { intros [|c l] Hne HF; [contradiction | exact (Forall_inv HF)]. }
  apply H; unfold decimalDigits.
  - cbn [digitsOfPos]; destruct (n <? 10); [discriminate|].
    apply digitsOfPos_nonempty; discriminate.
  - apply digitsOfPos_digits; constructor.
Qed.

Lemma formatDigits_head (ds : jsstring) (n : Z) :
  startsOtherThanMinus ds -> startsOtherThanMinus (formatDigits ds n).
Proof.
  destruct ds as [|d ds]; [contradiction|]; intros Hd; unfold formatDigits.
  destruct ((Z.of_nat (List.length (d :: ds)) <=? n) && (n <=? 21)); [exact Hd|].
  destruct ((0 <? n) && (n <=? 21)) eqn:E.
  - apply andb_true_iff in E; destruct E as [E _]; apply Z.ltb_lt in E.
    destruct (Z.to_nat n) as [|k] eqn:En; [lia | exact Hd].
  - destruct ((-6 <? n) && (n <=? 0)); [simpl; discriminate|].
    destruct ds; exact Hd.
Qed.

Lemma NumberToString_not_minus (x : float) : NumberToString x <> str "-".
Proof.
  unfold NumberToString.
  destruct (Prim2SF x) as [s|s| |s m e].
  - vm_compute; discriminate.
  - destruct s; vm_compute; discriminate.
  - vm_compute; discriminate.
  - destruct (shortestDigits _ _ _ _ _ _) as [s0 n].
    pose proof (formatDigits_head _ n (decimalDigits_head s0)) as H.
    destruct (formatDigits (decimalDigits s0) n) as [|c tail]; [contradiction|].
    change (str "-") with [45%N].
    destruct s; simpl; [discriminate|].
    intros [= -> _]; apply H; reflexivity.
Qed.

Lemma negated_not_minus (x : value) : streq (negated x) (str "-") = false.
Proof. apply streq_neq, NumberToString_not_minus. Qed.

Lemma not_In_cons (x y : jsstring) (l : list jsstring) :
  streq y x = false -> ~ In x l -> ~ In x (y :: l).
Proof.
  intros E H [-> | H']; [rewrite streq_refl in E; discriminate | contradiction].
Qed.

Lemma negativeZip_no_minus (fuel : nat) :
  forall done rest r,
    negativeZip fuel done rest = Some r ->
    ~ In (str "-") done -> everyMinusFollowed rest = true ->
    ~ In (str "-") r.
Proof.
  induction fuel as [|fuel IH]; intros done rest r H Hdone Hrest.
  - destruct rest; [|discriminate].
    injection H as <-; rewrite <- in_rev; exact Hdone.
  - destruct rest as [|x rest1].
    + injection H as <-; rewrite <- in_rev; exact Hdone.
    + simpl in H, Hrest; apply andb_true_iff in Hrest; destruct Hrest as [Hx H1].
      destruct (streq x (str "-")) eqn:Ex; simpl in H, Hx.
      * destruct (strictEq (next rest1) "(").
        { destruct (isNumber (before done)); apply IH in H; auto;
            try (simpl; exact H1);
            repeat (apply not_In_cons; [reflexivity|]); exact Hdone. }
        simpl in Hx; rewrite Hx in H.
        destruct rest1 as [|y rest2]; [discriminate|].
        simpl in H, H1; apply andb_true_iff in H1; destruct H1 as [_ H2].
        destruct (isNumber (before done) || strictEq (before done) ")");
          apply IH in H; auto.
        -- apply not_In_cons; [reflexivity | exact Hdone].
        -- simpl; rewrite negated_not_minus, H2; reflexivity.
        -- apply not_In_cons; [apply negated_not_minus | exact Hdone].
      * apply IH in H; auto.
        apply not_In_cons; [exact Ex | exact Hdone].
Qed.

Lemma fixNegativeNumbers_no_minus (tokenArray : list jsstring) :
  everyMinusFollowed tokenArray = true ->
  ~ In (str "-") (fixNegativeNumbers tokenArray).
Proof.
  intros H; unfold fixNegativeNumbers.
  destruct (fixNegativeLoop_finishes tokenArray) as (r & E); rewrite E.
  change 0 with (len (@nil jsstring)) in E.
  change tokenArray with (rev [] ++ tokenArray) in E at 2.
  rewrite fixNegativeLoop_zip in E.
  apply (negativeZip_no_minus _ _ _ _ E); [intros [] | exact H].
Qed.

(** The converter only moves tokens: what it outputs was in its input
    array, on its stack or in its output already. *)
Lemma popToParenthesis_tokens (operatorStack : list jsstring) :
  forall postfixArray stack' out',
    popToParenthesis operatorStack postfixArray = Returns (stack', out') ->
    forall t, In t stack' \/ In t out' -> In t operatorStack \/ In t postfixArray.
Proof.
  induction operatorStack as [|top stack IH]; intros out stack' out' H t Ht;
    simpl in H; [discriminate|].
  destruct (streq top (str "(")).
  - injection H as <- <-; destruct Ht; [left; right|right]; assumption.
  - destruct (IH _ _ _ H t Ht) as [Hs | Ho]; [left; right; exact Hs|].
    apply in_app_or in Ho; destruct Ho as [Ho | [<- | []]];
      [right; exact Ho | left; left; reflexivity].
Qed.

Lemma popPrecedence_tokens (token : jsstring) (operatorStack : list jsstring) :
  forall postfixArray stack' out',
    popPrecedence token operatorStack postfixArray = (stack', out') ->
    forall t, In t stack' \/ In t out' -> In t operatorStack \/ In t postfixArray.
Proof.
  induction operatorStack as [|top stack IH]; intros out stack' out' H t Ht;
    simpl in H.
  - injection H as <- <-; exact Ht.
  - destruct (geq (precedence top) (precedence token)).
    + destruct (IH _ _ _ H t Ht) as [Hs | Ho]; [left; right; exact Hs|].
      apply in_app_or in Ho; destruct Ho as [Ho | [<- | []]];
        [right; exact Ho | left; left; reflexivity].
    + injection H as <- <-; exact Ht.
Qed.

Lemma postfixLoop_tokens (tokenArray : list jsstring) :
  forall operatorStack postfixArray result,
    postfixLoop tokenArray operatorStack postfixArray = Returns result ->
    forall t, In t result ->
      In t tokenArray \/ In t operatorStack \/ In t postfixArray.
Proof.
  induction tokenArray as [|token rest IH]; intros stack out result H t Ht;
    simpl in H.
  - injection H as <-; apply in_app_or in Ht; tauto.
  - destruct (isOperator token); simpl in H.
    + destruct (streq token (str "(")).
      { destruct (IH _ _ _ H t Ht) as [?|[[<-|?]|?]]; simpl; tauto. }
      destruct (streq token (str ")")).
      { destruct (popToParenthesis stack out) as [[stack' out']| |] eqn:E;
          simpl in H; try discriminate.
        pose proof (popToParenthesis_tokens _ _ _ _ E t) as P.
        destruct (IH _ _ _ H t Ht) as [?|[?|?]]; simpl; tauto. }
      destruct (popPrecedence token stack out) as [stack' out'] eqn:E.
      pose proof (popPrecedence_tokens _ _ _ _ _ E t) as P.
      destruct (IH _ _ _ H t Ht) as [?|[[<-|?]|?]]; simpl; tauto.
    + destruct (IH _ _ _ H t Ht) as [?|[?|Ho]]; simpl; try tauto.
      apply in_app_or in Ho; destruct Ho as [?|[<-|[]]]; tauto.
Qed.

(** ** Implicit multiplication as one forward pass *)

Lemma isNumber_before (x : jsstring) (done : list jsstring) :
  isNumber (before (x :: done)) = isNumber (VString x).
Proof. reflexivity. Qed.

Lemma parenthesesZip_step (fuel : nat) (done : list jsstring)
  (x y : jsstring) (r : list jsstring) :
  parenthesesZip (S fuel) done (x :: y :: r) =
  if streq x (str ")") && streq y (str "(") then
    parenthesesZip fuel (x :: done) (str "*" :: y :: r)
  else if streq x (str "(") && isNumber (before done) then
    parenthesesZip fuel (x :: str "*" :: done) (y :: r)
  else if streq x (str ")") && isNumber (VString y) then
    parenthesesZip fuel (x :: done) (str "*" :: y :: r)
  else parenthesesZip fuel (x :: done) (y :: r).
Proof. reflexivity. Qed.

Lemma insertFrom_step (previousNumber : bool) (x y : jsstring) (r : list jsstring) :
  insertFrom previousNumber (x :: y :: r) =
  (if streq x (str "(") && previousNumber then [str "*"] else [])
  ++ x :: (if streq x (str ")") && (streq y (str "(") || isNumber (VString y))
           then [str "*"] else [])
  ++ insertFrom (if streq x (str ")") && (streq y (str "(") || isNumber (VString y))
                 then false else isNumber (VString x)) (y :: r).
Proof. reflexivity. Qed.

Lemma parenthesesZip_insertFrom (rest : list jsstring) :
  forall fuel done,
    (2 * List.length rest <= fuel)%nat ->
    parenthesesZip fuel done rest =
    Some (rev done ++ insertFrom (isNumber (before done)) rest).
Proof.
  induction rest as [|x rest1 IH]; intros fuel done F.
  - destruct fuel; reflexivity.
  - destruct rest1 as [|y r]; [destruct fuel; reflexivity|].
    simpl List.length in F.
    destruct fuel as [|[|fuel]]; try lia.
    rewrite parenthesesZip_step, insertFrom_step.
    destruct (streq x (str ")")) eqn:Ex.
    + replace (streq x (str "(")) with false
        by (symmetry; exact (streq_other x ")" "(" eq_refl Ex)).
      cbn [andb].
      assert (Star : forall f d,
                 (2 * List.length (y :: r) <= f)%nat ->
                 parenthesesZip (S f) (x :: d) (str "*" :: y :: r) =
                 Some (rev d ++ x :: str "*" :: insertFrom false (y :: r))).
      { intros f d Hf; rewrite parenthesesZip_step.
        change (streq (str "*") (str ")")) with false.
        change (streq (str "*") (str "(")) with false.
        cbn [andb]; rewrite (IH f (str "*" :: x :: d) Hf).
        simpl rev; rewrite <- !app_assoc; reflexivity. }
      destruct (streq y (str "(")) eqn:Ey; cbn [orb].
      * apply Star; simpl List.length; lia.
      * destruct (isNumber (VString y)) eqn:Ny.
        -- apply Star; simpl List.length; lia.
        -- rewrite (IH (S fuel) (x :: done)) by (simpl List.length; lia).
           rewrite isNumber_before; simpl rev; rewrite <- app_assoc; reflexivity.
    + cbn [andb].
      destruct (streq x (str "(") && isNumber (before done)).
      * rewrite (IH (S fuel) (x :: str "*" :: done)) by (simpl List.length; lia).
        rewrite isNumber_before; simpl rev; rewrite <- !app_assoc; reflexivity.
      * rewrite (IH (S fuel) (x :: done)) by (simpl List.length; lia).
        rewrite isNumber_before; simpl rev; rewrite <- app_assoc; reflexivity.
Qed.

Lemma fixParenthesesMultiplication_insertFrom (x : jsstring) (rest : list jsstring) :
  fixParenthesesMultiplication (x :: rest) =
  x :: insertFrom (isNumber (VString x)) rest.
Proof.
  unfold fixParenthesesMultiplication.
  change 1 with (len [x]); change (x :: rest) with (rev [x] ++ rest) at 2.
  rewrite fixParenthesesLoop_zip, parenthesesZip_insertFrom; [reflexivity|].
  simpl List.length; lia.
Qed.

Lemma lastToken_cons (x y : jsstring) (rest : list jsstring) :
  lastToken (x :: y :: rest) = lastToken (y :: rest).
Proof.
  unfold lastToken; rewrite (len_cons x).
  change (x :: y :: rest) with ([x] ++ y :: rest).
  replace (len (y :: rest) + 1 - 1) with (len [x] + (len (y :: rest) - 1))
    by (rewrite !len_cons; unfold len; simpl List.length; lia).
  apply elem_app; rewrite len_cons; pose proof (len_nonneg rest); lia.
Qed.

Lemma insertFrom_insertMultiplication (rest : list jsstring) :
  forall x previousNumber,
    strictEq (lastToken (x :: rest)) "(" = false ->
    insertFrom previousNumber (x :: rest) =
    (if streq x (str "(") && previousNumber then [str "*"] else [])
    ++ specInsertMultiplication (x :: rest).
Proof.
  induction rest as [|y r IH]; intros x pn Hlast.
  - change (strictEq (lastToken [x]) "(") with (streq x (str "(")) in Hlast.
    simpl; rewrite Hlast; reflexivity.
  - rewrite lastToken_cons in Hlast.
    rewrite insertFrom_step, (IH y _ Hlast).
    change (specInsertMultiplication (x :: y :: r))
      with (x :: (if adjacent x y then [str "*"] else [])
              ++ specInsertMultiplication (y :: r)).
    unfold adjacent.
    destruct (streq x (str ")")) eqn:Ex.
    + replace (isNumber (VString x)) with false
        by (apply streq_eq in Ex; subst; reflexivity).
      destruct (streq y (str "(")), (isNumber (VString y)); simpl;
        rewrite ?andb_false_r; reflexivity.
    + simpl andb; simpl orb; rewrite orb_false_r.
      rewrite (andb_comm (streq y (str "("))).
      destruct (isNumber (VString x) && streq y (str "("));
        rewrite <- ?app_assoc; reflexivity.
Qed.

Lemma fixParenthesesMultiplication_spec (tokenArray : list jsstring) :
  strictEq (elem tokenArray 0) ")" = false ->
  strictEq (lastToken tokenArray) "(" = false ->
  fixParenthesesMultiplication tokenArray = specInsertMultiplication tokenArray.
Proof.
  destruct tokenArray as [|x [|y rest]]; intros Hfirst Hlast; try reflexivity.
  rewrite fixParenthesesMultiplication_insertFrom.
  rewrite lastToken_cons in Hlast.
  rewrite (insertFrom_insertMultiplication rest y _ Hlast).
  change (strictEq (elem (x :: y :: rest) 0) ")") with (streq x (str ")")) in Hfirst.
  cbn [specInsertMultiplication]; unfold adjacent; rewrite Hfirst; simpl andb; simpl orb.
  rewrite orb_false_r, (andb_comm (streq y (str "("))).
  destruct (isNumber (VString x) && streq y (str "(")); reflexivity.
Qed.


(** On validated input the token array neither starts with [)] nor ends
    with [(]: the nesting would go negative, or not come back to zero. *)

Lemma whiteSpace_not_parenthesis (c : char) :
  isWhiteSpace c = true -> (c =? 40)%N = false /\ (c =? 41)%N = false.
Proof.
  unfold isWhiteSpace; cbn [existsb].
  rewrite !orb_true_iff, !N.eqb_eq; intros H.
  split; apply N.eqb_neq; lia.
Qed.

Lemma nesting_app (s t : jsstring) : nesting (s ++ t) = nesting s + nesting t.
Proof. induction s as [|c s IH]; simpl; [reflexivity | rewrite IH; lia]. Qed.

Lemma nesting_removeSpaces (s : jsstring) : nesting (removeSpaces s) = nesting s.
Proof.
  induction s as [|c s IH]; [reflexivity|].
  unfold removeSpaces in *; simpl filter; simpl nesting.
  destruct (isWhiteSpace c) eqn:W; simpl negb; cbv iota.
  - destruct (whiteSpace_not_parenthesis c W) as [-> ->]; rewrite IH; reflexivity.
  - simpl nesting; rewrite IH; reflexivity.
Qed.

Lemma removeSpaces_prefix (input : jsstring) :
  forall s t,
    removeSpaces input = s ++ t -> exists n, removeSpaces (firstn n input) = s.
Proof.
  induction input as [|c input IH]; intros s t H.
  - symmetry in H; apply app_eq_nil in H; destruct H as [-> _].
    exists 0%nat; reflexivity.
  - unfold removeSpaces in *; simpl filter in H.
    destruct (isWhiteSpace c) eqn:W; simpl negb in H; cbv iota in H.
    + destruct (IH s t H) as (n & Hn); exists (S n).
      simpl; rewrite W; exact Hn.
    + destruct s as [|d s].
      * exists 0%nat; reflexivity.
      * injection H as <- H; destruct (IH s t H) as (n & Hn); exists (S n).
        simpl; rewrite W, Hn; reflexivity.
Qed.

Lemma lastToken_snoc (l : list jsstring) (x : jsstring) :
  lastToken (l ++ [x]) = VString x.
Proof.
  unfold lastToken; rewrite len_app.
  replace (len l + len [x] - 1) with (len l + 0) by (unfold len; simpl; lia).
  rewrite elem_app by lia; reflexivity.
Qed.

Lemma validated_tokens_ends (input : jsstring) (tokens : list jsstring) :
  validateInput input = Returns tt ->
  getArrayOfTokens input = Returns tokens ->
  strictEq (elem tokens 0) ")" = false /\
  strictEq (lastToken tokens) "(" = false.
Proof.
  intros Hvalid Htokens.
  destruct (validateInput_cases input) as [[H _] | [_ Hok]]; [congruence|].
  assert (Hpre : forall s t, removeSpaces input = s ++ t -> 0 <= nesting s).
  { intros s t E; destruct (removeSpaces_prefix input s t E) as (n & <-).
    rewrite nesting_removeSpaces.
    destruct (Z.lt_ge_cases (nesting (firstn n input)) 0) as [Hneg|]; [|assumption].
    exfalso; apply Hok; left; exists n; exact Hneg. }
  assert (Hzero : nesting (removeSpaces input) = 0).
  { rewrite nesting_removeSpaces.
    destruct (Z.eq_dec (nesting input) 0) as [|Hne]; [assumption|].
    exfalso; apply Hok; right; left; exact Hne. }
  unfold getArrayOfTokens in Htokens; apply tokensLoop_concat in Htokens.
  simpl List.concat in Htokens at 2; simpl app in Htokens.
  rewrite <- Htokens in Hpre, Hzero.
  split.
  - destruct tokens as [|x rest]; [reflexivity|].
    change (strictEq (elem (x :: rest) 0) ")") with (streq x (str ")")).
    destruct (streq x (str ")")) eqn:E; [|reflexivity].
    apply streq_eq in E; subst x.
    specialize (Hpre (str ")") (List.concat rest) eq_refl).
    vm_compute in Hpre; exfalso; apply Hpre; reflexivity.
  - destruct tokens as [|x rest] using rev_ind; [reflexivity|].
    rewrite lastToken_snoc.
    change (strictEq (VString x) "(") with (streq x (str "(")).
    destruct (streq x (str "(")) eqn:E; [|reflexivity].
    apply streq_eq in E; subst x.
    rewrite concat_app in Hpre, Hzero; simpl List.concat in Hpre, Hzero.
    specialize (Hpre (List.concat rest) (str "(" ++ []) eq_refl).
    rewrite nesting_app in Hzero.
    change (nesting [40%N]) with 1 in Hzero; lia.
Qed.

(** C6: on validated input the loop of [fixParenthesesMultiplication]
    puts a [*] between every two adjacent tokens that are [)] and [(], a
    number and [(], or [)] and a number, and nowhere else; so
    [(2)(3)] becomes [(2)*(3)], [2(3)] becomes [2*(3)] and [(3)2] becomes
    [(3)*2], and "2(3)", "(2)(3)" and "(2)3" are 6 and "(2)(3)(4)" is 24. *)
Theorem implicit_multiplication :
  (forall input tokens,
     validateInput input = Returns tt ->
     getArrayOfTokens input = Returns tokens ->
     fixParenthesesMultiplication tokens = specInsertMultiplication tokens) /\
  specInsertMultiplication [str "("; str "2"; str ")"; str "("; str "3"; str ")"] =
    [str "("; str "2"; str ")"; str "*"; str "("; str "3"; str ")"] /\
  specInsertMultiplication [str "2"; str "("; str "3"; str ")"] =
    [str "2"; str "*"; str "("; str "3"; str ")"] /\
  specInsertMultiplication [str "("; str "3"; str ")"; str "2"] =
    [str "("; str "3"; str ")"; str "*"; str "2"] /\
  evaluateExpression (str "2(3)") = Returns 6%float /\
  evaluateExpression (str "(2)(3)") = Returns 6%float /\
  evaluateExpression (str "(2)3") = Returns 6%float /\
  evaluateExpression (str "(2)(3)(4)") = Returns 24%float.
Proof.
  split; [|repeat split; vm_compute; reflexivity].
  intros input tokens Hvalid Htokens.
  destruct (validated_tokens_ends input tokens Hvalid Htokens) as [Hfirst Hlast].
  apply fixParenthesesMultiplication_spec; assumption.
Qed.

Lemma implicit_multiplication_witness :
  fixParenthesesMultiplication
    [str "("; str "2"; str ")"; str "("; str "3"; str ")"; str "("; str "4"; str ")"] =
  specInsertMultiplication
    [str "("; str "2"; str ")"; str "("; str "3"; str ")"; str "("; str "4"; str ")"].
Proof.
  apply (proj1 implicit_multiplication (str "(2)(3)(4)")).
  - vm_compute; reflexivity.
  - vm_compute; reflexivity.
Defined.

(** ** Normalized tokens of validated input *)

Lemma insertMultiplication_next (tokenArray : list jsstring) :
  next (specInsertMultiplication tokenArray) = next tokenArray.
Proof. destruct tokenArray; reflexivity. Qed.

Lemma everyMinusFollowed_cons (x : jsstring) (rest : list jsstring) :
  everyMinusFollowed (x :: rest) =
  (negb (streq x (str "-")) || strictEq (next rest) "(" || isNumber (next rest))
  && everyMinusFollowed rest.
Proof. reflexivity. Qed.

(** No [*] is put after a [-]. *)
Lemma everyMinusFollowed_insertMultiplication (tokenArray : list jsstring) :
  everyMinusFollowed tokenArray = true ->
  everyMinusFollowed (specInsertMultiplication tokenArray) = true.
Proof.
  induction tokenArray as [|x rest IH]; [reflexivity|].
  intros H; simpl in H; apply andb_true_iff in H; destruct H as [Hx Hrest].
  specialize (IH Hrest).
  destruct rest as [|y r].
  { change (specInsertMultiplication [x]) with [x].
    cbn [everyMinusFollowed]; rewrite Hx; reflexivity. }
  change (specInsertMultiplication (x :: y :: r))
    with (x :: (if adjacent x y then [str "*"] else [])
            ++ specInsertMultiplication (y :: r)).
  destruct (adjacent x y) eqn:A.
  - change (x :: [str "*"] ++ specInsertMultiplication (y :: r))
      with (x :: str "*" :: specInsertMultiplication (y :: r)).
    rewrite (everyMinusFollowed_cons x), (everyMinusFollowed_cons (str "*")), IH.
    destruct (streq x (str "-")) eqn:Ex; [|reflexivity].
    apply streq_eq in Ex; subst x; discriminate A.
  - change (x :: [] ++ specInsertMultiplication (y :: r))
      with (x :: specInsertMultiplication (y :: r)).
    rewrite (everyMinusFollowed_cons x), insertMultiplication_next, IH, andb_true_r.
    exact Hx.
Qed.

(** C2, as the code has it: when every [-] token of a validated input is
    directly followed by a number token or by [(], no [-] token is left
    after normalization, and none reaches the postfix array, whose tokens
    are all the evaluator looks at: the [-] entry of [operate] is not
    called. *)
Theorem followed_minus_is_folded (input : jsstring) (tokens : list jsstring) :
  validateInput input = Returns tt ->
  getArrayOfTokens input = Returns tokens ->
  everyMinusFollowed tokens = true ->
  exists normalized,
    normalizedTokens input = Returns normalized /\
    ~ In (str "-") normalized /\
    forall postfixArray,
      convertToPostfix input = Returns postfixArray ->
      ~ In (str "-") postfixArray.
Proof.
  intros Hvalid Htokens Hfollowed.
  destruct (validated_tokens_ends input tokens Hvalid Htokens) as [Hfirst Hlast].
  apply everyMinusFollowed_insertMultiplication in Hfollowed.
  rewrite <- (fixParenthesesMultiplication_spec tokens Hfirst Hlast) in Hfollowed.
  pose proof (fixNegativeNumbers_no_minus _ Hfollowed) as Hno.
  exists (fixNegativeNumbers (fixParenthesesMultiplication tokens)).
  unfold convertToPostfix, normalizedTokens; rewrite Htokens; simpl bind.
  repeat split; [exact Hno|].
  intros postfixArray H Hin.
  destruct (postfixLoop_tokens _ _ _ _ H _ Hin) as [?|[[]|[]]]; contradiction.
Qed.

Lemma followed_minus_is_folded_witness :
  exists normalized,
    normalizedTokens (str "5-(2-3)*-4") = Returns normalized /\
    ~ In (str "-") normalized /\
    forall postfixArray,
      convertToPostfix (str "5-(2-3)*-4") = Returns postfixArray ->
      ~ In (str "-") postfixArray.
Proof.
  apply (followed_minus_is_folded (str "5-(2-3)*-4")
           [str "5"; str "-"; str "("; str "2"; str "-"; str "3"; str ")";
            str "*"; str "-"; str "4"]).
  - vm_compute; reflexivity.
  - vm_compute; reflexivity.
  - vm_compute; reflexivity.
Defined.

(** C2 fails on "5--3": the first [-] is followed by another [-], so it is
    not folded and stays a token of its own after normalization
    ([5, -, -3]); it reaches the postfix array and the evaluator applies
    the [-] entry of [operate] to it, which gives 5 - (-3) = 8. *)
Lemma minus_token_survives :
  validateInput (str "5--3") = Returns tt /\
  normalizedTokens (str "5--3") = Returns [str "5"; str "-"; str "-3"] /\
  In (str "-") [str "5"; str "-"; str "-3"] /\
  convertToPostfix (str "5--3") = Returns [str "5"; str "-3"; str "-"] /\
  evaluateLoop [str "5"; str "-3"; str "-"] [] = Returns [VNumber 8%float] /\
  evaluateExpression (str "5--3") = Returns 8%float.
Proof.
  repeat split; try (vm_compute; reflexivity).
  right; left; reflexivity.
Qed.

(** * Further properties of the pipeline *)

(** ** White space *)

Lemma removeSpaces_idempotent (s : jsstring) :
  removeSpaces (removeSpaces s) = removeSpaces s.
Proof.
  unfold removeSpaces; induction s as [|c s IH]; [reflexivity|].
  simpl; destruct (isWhiteSpace c) eqn:W; simpl; [exact IH|].
  rewrite W; simpl; rewrite IH; reflexivity.
Qed.

Lemma checkParentheses_removeSpaces (s : jsstring) :
  forall t, checkParentheses (removeSpaces s) t = checkParentheses s t.
Proof.
  unfold removeSpaces; induction s as [|c s IH]; intros t; [reflexivity|].
  simpl filter; destruct (isWhiteSpace c) eqn:W; simpl negb; cbv iota.
  - simpl checkParentheses.
    destruct (whiteSpace_not_parenthesis c W) as [-> ->]; apply IH.
  - simpl checkParentheses.
    destruct (c =? 40)%N; [apply IH|].
    destruct (c =? 41)%N; [|apply IH].
    destruct (t - 1 <? 0); [reflexivity | apply IH].
Qed.

Lemma validateInput_removeSpaces (input : jsstring) :
  validateInput (removeSpaces input) = validateInput input.
Proof.
  unfold validateInput.
  rewrite checkParentheses_removeSpaces, removeSpaces_idempotent; reflexivity.
Qed.

Lemma getArrayOfTokens_removeSpaces (input : jsstring) :
  getArrayOfTokens (removeSpaces input) = getArrayOfTokens input.
Proof.
  unfold getArrayOfTokens; rewrite removeSpaces_idempotent; reflexivity.
Qed.

Lemma evaluateExpression_removeSpaces (input : jsstring) :
  evaluateExpression (removeSpaces input) = evaluateExpression input.
Proof.
  unfold evaluateExpression, convertToPostfix, normalizedTokens.
  rewrite validateInput_removeSpaces, getArrayOfTokens_removeSpaces.
  reflexivity.
Qed.

(** X1: white space counts for nothing, wherever it stands, inside a
    number too: two inputs that are the same once white space is removed
    are validated, tokenized and evaluated alike. *)
Theorem white_space_is_ignored (a b : jsstring) :
  removeSpaces a = removeSpaces b ->
  validateInput a = validateInput b /\
  getArrayOfTokens a = getArrayOfTokens b /\
  evaluateExpression a = evaluateExpression b.
Proof.
  intros E.
  rewrite <- (validateInput_removeSpaces a), <- (validateInput_removeSpaces b).
  rewrite <- (getArrayOfTokens_removeSpaces a), <- (getArrayOfTokens_removeSpaces b).
  rewrite <- (evaluateExpression_removeSpaces a), <- (evaluateExpression_removeSpaces b).
  rewrite E; repeat split.
Qed.

Lemma white_space_is_ignored_witness :
  validateInput (str "1 2 + ( 3 )") = validateInput (str "12+(3)") /\
  getArrayOfTokens (str "1 2 + ( 3 )") = getArrayOfTokens (str "12+(3)") /\
  evaluateExpression (str "1 2 + ( 3 )") = evaluateExpression (str "12+(3)").
Proof.
  apply (white_space_is_ignored (str "1 2 + ( 3 )") (str "12+(3)")).
  vm_compute; reflexivity.
Defined.

(** X2: an input that holds nothing but white space, the empty string
    included, fails with "Invalid Input": the evaluation stack is empty. *)
Theorem blank_input_is_invalid (input : jsstring) :
  removeSpaces input = [] ->
  evaluateExpression input = Throws InvalidInput.
Proof.
  intros E; rewrite <- evaluateExpression_removeSpaces, E.
  vm_compute; reflexivity.
Qed.

Lemma blank_input_is_invalid_witness :
  evaluateExpression [32%N; 9%N; 10%N] = Throws InvalidInput.
Proof. apply blank_input_is_invalid; vm_compute; reflexivity. Defined.

(** ** What the tokenizer returns, and when *)

Lemma operatorFree_split (l : jsstring) :
  exists run post, l = run ++ post /\ operatorFree run /\ startsWithOperator post.
Proof.
  induction l as [|c l (run & post & E & Hrun & Hpost)].
  - exists [], []; repeat split; constructor.
  - destruct (isOperator [c]) eqn:Ec.
    + exists [], (c :: l); repeat split; [constructor | exact Ec].
    + exists (c :: run), post; rewrite E; repeat split; [|exact Hpost].
      constructor; assumption.
Qed.

Lemma tokensLoop_step (fuel : nat) (c : char) (rest : jsstring)
  (tokenArray : list jsstring) :
  tokensLoop (S fuel) (c :: rest) tokenArray =
  if isOperator [c] then tokensLoop fuel rest (tokenArray ++ [[c]])
  else
    '(currToken, rest') <- scanNumber [c] rest ;;
    if endsWithPoint currToken then Throws InvalidInput
    else tokensLoop fuel rest' (tokenArray ++ [currToken]).
Proof. reflexivity. Qed.

(** The tokens pushed before a round do not bear on what comes after. *)
Lemma tokensLoop_acc (fuel : nat) :
  forall s tokenArray,
    tokensLoop fuel s tokenArray =
    (l <- tokensLoop fuel s [] ;; Returns (tokenArray ++ l)).
Proof.
  induction fuel as [|fuel IH]; intros s acc.
  - destruct s; simpl; [rewrite app_nil_r|]; reflexivity.
  - destruct s as [|c rest]; [simpl; rewrite app_nil_r; reflexivity|].
    rewrite !tokensLoop_step.
    destruct (isOperator [c]).
    + rewrite (IH _ (acc ++ _)), (IH _ ([] ++ _)).
      destruct (tokensLoop fuel rest []); simpl; try reflexivity.
      rewrite <- app_assoc; reflexivity.
    + destruct (scanNumber [c] rest) as [[tok rest']| |]; simpl; try reflexivity.
      destruct (endsWithPoint tok); [reflexivity|].
      rewrite (IH _ (acc ++ _)), (IH _ [_]).
      destruct (tokensLoop fuel rest' []); simpl; try reflexivity.
      rewrite <- app_assoc; reflexivity.
Qed.

Lemma secondPoint_false (c : char) (run : jsstring) :
  secondPoint [c] run = false -> (points (c :: run) <= 1)%nat.
Proof.
  unfold secondPoint; rewrite !points_cons; change (points []) with 0%nat.
  destruct (c =? 46)%N, (points run) as [|[|n]]; simpl; (discriminate || lia).
Qed.

Lemma secondPoint_true (c : char) (run : jsstring) :
  secondPoint [c] run = true -> (2 <= points (c :: run))%nat.
Proof.
  unfold secondPoint; rewrite !points_cons; change (points []) with 0%nat.
  destruct (c =? 46)%N, (points run) as [|[|n]]; simpl; (discriminate || lia).
Qed.

Lemma tokensLoop_shape (fuel : nat) :
  forall s tokens,
    tokensLoop fuel s [] = Returns tokens ->
    Forall (fun t => operatorToken t \/ numberToken t) tokens /\
    numbersApart tokens /\
    (startsWithOperator s ->
     match tokens with
     | t :: _ => operatorToken t
     | [] => True
     end).
Proof.
  induction fuel as [|fuel IH]; intros s tokens H.
  - destruct s; [|discriminate].
    injection H as <-; split; [|split]; constructor.
  - destruct s as [|c rest].
    + injection H as <-; split; [|split]; constructor.
    + rewrite tokensLoop_step in H.
      destruct (isOperator [c]) eqn:Ec.
      * rewrite tokensLoop_acc in H.
        destruct (tokensLoop fuel rest []) as [l| |] eqn:E; try discriminate.
        injection H as <-.
        destruct (IH rest l E) as (HF & HA & _).
        assert (Hop : operatorToken [c]) by (exists c; auto).
        split; [|split].
        -- constructor; [left; exact Hop | exact HF].
        -- split; [destruct l; auto | exact HA].
        -- intros _; exact Hop.
      * destruct (operatorFree_split rest) as (run & post & -> & Hrun & Hpost).
        rewrite (scanNumber_run run [c] post Hrun Hpost) in H.
        destruct (secondPoint [c] run) eqn:E2; [discriminate|]; simpl in H.
        destruct (endsWithPoint (c :: run)) eqn:Ep; [discriminate|].
        rewrite tokensLoop_acc in H.
        destruct (tokensLoop fuel post []) as [l| |] eqn:E; try discriminate.
        injection H as <-.
        destruct (IH post l E) as (HF & HA & HH).
        specialize (HH Hpost).
        assert (Hnum : numberToken (c :: run)).
        { repeat split; [discriminate | constructor; assumption
                        | apply secondPoint_false; exact E2 | exact Ep]. }
        split; [|split].
        -- constructor; [right; exact Hnum | exact HF].
        -- split; [destruct l; auto | exact HA].
        -- simpl; intros Hc; congruence.
Qed.

(** X3: the array [getArrayOfTokens] returns is made of operator tokens,
    each one operator or parenthesis character, and of number tokens, each
    free of such characters, with one decimal point at most and none at
    its end; two number tokens never stand side by side. *)
Theorem tokens_are_operators_and_numbers (input : jsstring)
  (tokens : list jsstring) :
  getArrayOfTokens input = Returns tokens ->
  Forall (fun t => operatorToken t \/ numberToken t) tokens /\
  numbersApart tokens.
Proof.
  unfold getArrayOfTokens; intros H.
  destruct (tokensLoop_shape _ _ _ H) as (HF & HA & _); split; assumption.
Qed.

Lemma tokens_are_operators_and_numbers_witness :
  Forall (fun t => operatorToken t \/ numberToken t)
    [str "12.5"; str "*"; str "("; str ".5"; str ")"] /\
  numbersApart [str "12.5"; str "*"; str "("; str ".5"; str ")"].
Proof.
  apply (tokens_are_operators_and_numbers (str "12.5 * (.5)")).
  vm_compute; reflexivity.
Defined.

Lemma endsWithOperator_cons (c : char) (pre : jsstring) :
  isOperator [c] = true -> endsWithOperator pre -> endsWithOperator (c :: pre).
Proof.
  intros Hc [-> | (pre' & o & -> & Ho)]; right.
  - exists [], c; split; [reflexivity | exact Hc].
  - exists (c :: pre'), o; split; [reflexivity | exact Ho].
Qed.

Lemma malformedRun_after_operator (c : char) (rest : jsstring) :
  isOperator [c] = true -> malformedRun rest -> malformedRun (c :: rest).
Proof.
  intros Hc (pre & run & post & -> & Hpre & Hpost & Hne & Hfree & Hbad).
  exists (c :: pre), run, post; repeat split; try assumption.
  apply endsWithOperator_cons; assumption.
Qed.

Lemma malformedRun_after_number (tok post : jsstring) :
  startsWithOperator post -> malformedRun post -> malformedRun (tok ++ post).
Proof.
  intros Hstart (pre & run & post' & -> & Hpre & Hpost & Hne & Hfree & Hbad).
  exists (tok ++ pre), run, post'; rewrite <- app_assoc.
  repeat split; try assumption.
  destruct Hpre as [-> | (pre' & o & -> & Ho)].
  - exfalso; destruct run as [|d run]; [contradiction|].
    simpl in Hstart; inversion Hfree; congruence.
  - right; exists (tok ++ pre'), o; rewrite <- app_assoc; auto.
Qed.

Lemma tokensLoop_throws (fuel : nat) :
  forall s tokenArray e,
    tokensLoop fuel s tokenArray = Throws e ->
    e = InvalidInput /\ malformedRun s.
Proof.
  induction fuel as [|fuel IH]; intros s acc e H.
  - destruct s; discriminate.
  - destruct s as [|c rest]; [discriminate|].
    rewrite tokensLoop_step in H.
    destruct (isOperator [c]) eqn:Ec.
    + destruct (IH _ _ _ H) as [-> M]; split; [reflexivity|].
      apply malformedRun_after_operator; assumption.
    + destruct (operatorFree_split rest) as (run & post & -> & Hrun & Hpost).
      rewrite (scanNumber_run run [c] post Hrun Hpost) in H.
      assert (Hfree : operatorFree (c :: run)) by (constructor; assumption).
      assert (Bad : (2 <= points (c :: run))%nat \/ endsWithPoint (c :: run) = true ->
                    malformedRun (c :: run ++ post)).
      { intros Hbad; exists [], (c :: run), post; repeat split; auto;
          [left; reflexivity | discriminate]. }
      destruct (secondPoint [c] run) eqn:E2.
      * injection H as <-; split; [reflexivity|].
        apply Bad; left; apply secondPoint_true; exact E2.
      * simpl in H; destruct (endsWithPoint (c :: run)) eqn:Ep.
        -- injection H as <-; split; [reflexivity | apply Bad; right; reflexivity].
        -- destruct (IH _ _ _ H) as [-> M]; split; [reflexivity|].
           apply (malformedRun_after_number (c :: run) post Hpost M).
Qed.

Lemma malformedRun_throws (input : jsstring) :
  malformedRun (removeSpaces input) ->
  getArrayOfTokens input = Throws InvalidInput.
Proof.
  intros (pre & run & post & E & Hpre & Hpost & Hne & Hfree & Hbad).
  unfold getArrayOfTokens; rewrite E.
  destruct (tokensLoop_prefix (List.length (pre ++ run ++ post)) pre (run ++ post) [])
    as [H | (fuel' & acc' & L & H)]; [lia | exact Hpre | exact H |].
  rewrite H; apply tokensLoop_bad_run; assumption.
Qed.

(** X4: [getArrayOfTokens] always ends, and the only thing it throws is
    "Invalid Input", exactly when some stretch of characters between
    operators has two decimal points or ends in one; on any other string,
    whatever its characters, it returns. *)
Theorem tokenizer_outcome (input : jsstring) :
  match getArrayOfTokens input with
  | Returns _ => ~ malformedRun (removeSpaces input)
  | Throws e => e = InvalidInput /\ malformedRun (removeSpaces input)
  | Diverges => False
  end.
Proof.
  destruct (getArrayOfTokens input) as [tokens|e|] eqn:E.
  - intros M; apply malformedRun_throws in M; congruence.
  - unfold getArrayOfTokens in E; exact (tokensLoop_throws _ _ _ _ E).
  - exact (getArrayOfTokens_ends input E).
Qed.

(** ** Tokens and [isOperator] *)

Lemma includes_head (s : jsstring) (c : char) (t : jsstring) :
  includes s (c :: t) = true -> In c s.
Proof.
  induction s as [|d s IH]; simpl; [discriminate|].
  rewrite orb_true_iff, andb_true_iff, N.eqb_eq.
  intros [[-> _] | H]; [left; reflexivity | right; apply IH; exact H].
Qed.

Lemma isOperator_head (c : char) (t : jsstring) :
  isOperator (c :: t) = true -> isOperator [c] = true.
Proof.
  intros H; apply includes_head in H.
  apply includes_char_In; exact H.
Qed.

Lemma startsPlain_not_operator (s : jsstring) :
  startsPlain s -> isOperator s = false.
Proof.
  destruct s as [|c t]; [contradiction|]; simpl; intros Hc.
  destruct (isOperator (c :: t)) eqn:E; [|reflexivity].
  apply isOperator_head in E; congruence.
Qed.

Lemma isOperator_after_minus (d : char) (t : jsstring) :
  isOperator (45%N :: d :: t) = true -> d = 43%N.
Proof.
  unfold isOperator; change (str "*/-+()") with [42; 47; 45; 43; 40; 41]%N.
  cbn [includes startsWith N.eqb Pos.eqb andb orb].
  rewrite !orb_false_r, andb_true_iff, N.eqb_eq; intros [H _]; exact H.
Qed.

Lemma operator_characters (c : char) :
  isOperator [c] = true ->
  In [c] [str "+"; str "-"; str "*"; str "/"; str "("; str ")"].
Proof.
  intros H; apply includes_char_In in H.
  change (str "*/-+()") with [42; 47; 45; 43; 40; 41]%N in H.
  simpl in H; destruct H as [<-|[<-|[<-|[<-|[<-|[<-|[]]]]]]]; simpl; tauto.
Qed.

Lemma digit_not_operator (c : char) :
  (48 <= c <= 57)%N -> isOperator [c] = false.
Proof.
  intros Hc; destruct (isOperator [c]) eqn:E; [|reflexivity].
  apply includes_char_In in E.
  change (str "*/-+()") with [42; 47; 45; 43; 40; 41]%N in E.
  simpl in E; lia.
Qed.

Lemma digitsOfPos_range (fuel : nat) :
  forall n acc,
    Forall (fun c => (48 <= c <= 57)%N) acc ->
    Forall (fun c => (48 <= c <= 57)%N) (digitsOfPos fuel n acc).
Proof.
  induction fuel as [|fuel IH]; intros n acc Hacc; cbn [digitsOfPos];
    [exact Hacc|].
  assert (Hd : (48 <= Z.to_N (48 + n mod 10) <= 57)%N).
  { pose proof (Z.mod_pos_bound n 10 ltac:(lia)); lia. }
  destruct (n <? 10); [|apply IH]; (constructor; [exact Hd | exact Hacc]).
Qed.

Lemma decimalDigits_plain (n : Z) : startsPlain (decimalDigits n).
Proof.
  assert (H : forall l : jsstring,
             l <> [] -> Forall (fun c => (48 <= c <= 57)%N) l -> startsPlain l).
  { intros [|c l] Hne HF; [contradiction|].
    apply digit_not_operator; exact (Forall_inv HF). }
  apply H; unfold decimalDigits.
  - cbn [digitsOfPos]; destruct (n <? 10); [discriminate|].
    apply digitsOfPos_nonempty; discriminate.
  - apply digitsOfPos_range; constructor.
Qed.

Lemma formatDigits_plain (ds : jsstring) (n : Z) :
  startsPlain ds -> startsPlain (formatDigits ds n).
Proof.
  destruct ds as [|d ds]; [contradiction|]; intros Hd; unfold formatDigits.
  destruct ((Z.of_nat (List.length (d :: ds)) <=? n) && (n <=? 21)); [exact Hd|].
  destruct ((0 <? n) && (n <=? 21)) eqn:E.
  - apply andb_true_iff in E; destruct E as [E _]; apply Z.ltb_lt in E.
    destruct (Z.to_nat n) as [|k] eqn:En; [lia | exact Hd].
  - destruct ((-6 <? n) && (n <=? 0)); [reflexivity|].
    destruct ds; exact Hd.
Qed.

(** [String(x)] is not a string that [isOperator] accepts. *)
Lemma NumberToString_not_operator (x : float) :
  isOperator (NumberToString x) = false.
Proof.
  unfold NumberToString.
  destruct (Prim2SF x) as [s|s| |s m e].
  - reflexivity.
  - destruct s; reflexivity.
  - reflexivity.
  - destruct (shortestDigits _ _ _ _ _ _) as [s0 n].
    pose proof (formatDigits_plain _ n (decimalDigits_plain s0)) as H.
    destruct (formatDigits (decimalDigits s0) n) as [|c tail]; [contradiction|].
    simpl in H; destruct s.
    + change (str "-" ++ c :: tail) with (45%N :: c :: tail).
      destruct (isOperator (45%N :: c :: tail)) eqn:E; [|reflexivity].
      apply isOperator_after_minus in E; subst c; discriminate H.
    + apply (startsPlain_not_operator (c :: tail)); exact H.
Qed.

Lemma negated_not_operator (x : value) : isOperator (negated x) = false.
Proof. apply NumberToString_not_operator. Qed.

Lemma plain_not_operator (t : jsstring) : isOperator t = false -> plainToken t.
Proof. intros H H'; congruence. Qed.

Lemma plain_operatorToken (t : jsstring) : operatorToken t -> plainToken t.
Proof. intros (c & -> & Hc) _; apply operator_characters; exact Hc. Qed.

Lemma plain_numberToken_not_operator (t : jsstring) :
  numberToken t -> isOperator t = false.
Proof.
  intros (Hne & Hfree & _); apply startsPlain_not_operator.
  destruct t as [|c t]; [contradiction | exact (Forall_inv Hfree)].
Qed.

Lemma plain_numberToken (t : jsstring) : numberToken t -> plainToken t.
Proof.
  intros H; apply plain_not_operator, plain_numberToken_not_operator; exact H.
Qed.

(** ** What the normalizing loops keep *)

Section KeptByTheLoops.

Variable P : jsstring -> Prop.
Hypothesis P_times : P (str "*").
Hypothesis P_plus : P (str "+").
Hypothesis P_minus_one : P (str "-1").
Hypothesis P_negated : forall x, P (negated x).

Lemma parenthesesZip_Forall (fuel : nat) :
  forall done rest r,
    parenthesesZip fuel done rest = Some r ->
    Forall P done -> Forall P rest -> Forall P r.
Proof.
  induction fuel as [|fuel IH]; intros done rest r H Hdone Hrest.
  - destruct rest as [|x [|y rest]]; try discriminate; injection H as <-;
      apply Forall_app; split; auto; apply Forall_rev; exact Hdone.
  - destruct rest as [|x [|y rest]];
      try (injection H as <-; apply Forall_app; split; auto;
           apply Forall_rev; exact Hdone).
    rewrite parenthesesZip_step in H.
    inversion Hrest as [|? ? Hx Hrest']; subst.
    destruct (streq x (str ")") && streq y (str "("));
      [apply IH in H; auto|].
    destruct (streq x (str "(") && isNumber (before done));
      [apply IH in H; auto|].
    destruct (streq x (str ")") && isNumber (VString y));
      apply IH in H; auto.
Qed.

Lemma negativeZip_Forall (fuel : nat) :
  forall done rest r,
    negativeZip fuel done rest = Some r ->
    Forall P done -> Forall P rest -> Forall P r.
Proof.
  induction fuel as [|fuel IH]; intros done rest r H Hdone Hrest.
  - destruct rest; [|discriminate].
    injection H as <-; apply Forall_rev; exact Hdone.
  - destruct rest as [|x rest1].
    + injection H as <-; apply Forall_rev; exact Hdone.
    + simpl in H; inversion Hrest as [|? ? Hx Hrest1]; subst.
      assert (Htl : Forall P (tl rest1)).
      { destruct rest1; [constructor | exact (Forall_inv_tail Hrest1)]. }
      destruct (streq x (str "-") && strictEq (next rest1) "(").
      { destruct (isNumber (before done)); apply IH in H; auto. }
      destruct (streq x (str "-") && isNumber (next rest1)).
      { destruct (isNumber (before done) || strictEq (before done) ")");
          apply IH in H; auto. }
      apply IH in H; auto.
Qed.

Lemma fixParenthesesMultiplication_Forall (tokenArray : list jsstring) :
  Forall P tokenArray -> Forall P (fixParenthesesMultiplication tokenArray).
Proof.
  intros HP; unfold fixParenthesesMultiplication.
  destruct tokenArray as [|a0 rest]; [exact HP|].
  destruct (fixParenthesesLoop_finishes (a0 :: rest)) as (r & E); rewrite E.
  change 1 with (len [a0]) in E.
  change (a0 :: rest) with (rev [a0] ++ rest) in E at 2.
  rewrite fixParenthesesLoop_zip in E.
  inversion HP; subst.
  apply (parenthesesZip_Forall _ _ _ _ E); auto.
Qed.

Lemma fixNegativeNumbers_Forall (tokenArray : list jsstring) :
  Forall P tokenArray -> Forall P (fixNegativeNumbers tokenArray).
Proof.
  intros HP; unfold fixNegativeNumbers.
  destruct (fixNegativeLoop_finishes tokenArray) as (r & E); rewrite E.
  change 0 with (len (@nil jsstring)) in E.
  change tokenArray with (rev [] ++ tokenArray) in E at 2.
  rewrite fixNegativeLoop_zip in E.
  apply (negativeZip_Forall _ _ _ _ E); auto.
Qed.

End KeptByTheLoops.

Lemma normalizedTokens_Forall (P : jsstring -> Prop) (input : jsstring)
  (tokens normalized : list jsstring) :
  P (str "*") -> P (str "+") -> P (str "-1") -> (forall x, P (negated x)) ->
  getArrayOfTokens input = Returns tokens ->
  normalizedTokens input = Returns normalized ->
  Forall P tokens -> Forall P normalized.
Proof.
  intros P1 P2 P3 P4 Ht Hn HP; unfold normalizedTokens in Hn.
  rewrite Ht in Hn; injection Hn as <-.
  apply fixNegativeNumbers_Forall; auto.
  apply fixParenthesesMultiplication_Forall; auto.
Qed.

Lemma plain_tokens (input : jsstring) (tokens : list jsstring) :
  getArrayOfTokens input = Returns tokens -> Forall plainToken tokens.
Proof.
  unfold getArrayOfTokens; intros H.
  destruct (tokensLoop_shape _ _ _ H) as (HF & _).
  eapply Forall_impl; [|exact HF].
  intros t [Ht | Ht]; [apply plain_operatorToken | apply plain_numberToken]; exact Ht.
Qed.

Lemma plain_normalized (input : jsstring) (normalized : list jsstring) :
  normalizedTokens input = Returns normalized -> Forall plainToken normalized.
Proof.
  intros Hn; pose proof Hn as Hn'; unfold normalizedTokens in Hn'.
  destruct (getArrayOfTokens input) as [tokens| |] eqn:Ht; try discriminate.
  apply (normalizedTokens_Forall plainToken input tokens normalized); auto.
  - intros _; simpl; tauto.
  - intros _; simpl; tauto.
  - apply plain_not_operator; reflexivity.
  - intros x; apply plain_not_operator, negated_not_operator.
  - apply (plain_tokens input); exact Ht.
Qed.

(** X5: after normalization, folded numbers included, a token that
    [isOperator] accepts is one of the six strings [+ - * / ( )]: a number
    is never taken for an operator by the converter or the evaluator, and
    no string of several operator characters comes up. *)
Theorem normalized_operators_are_single (input : jsstring)
  (normalized : list jsstring) (t : jsstring) :
  normalizedTokens input = Returns normalized ->
  In t normalized -> isOperator t = true ->
  In t [str "+"; str "-"; str "*"; str "/"; str "("; str ")"].
Proof.
  intros Hn Hin Hop.
  pose proof (plain_normalized input normalized Hn) as HF.
  rewrite Forall_forall in HF; exact (HF t Hin Hop).
Qed.

Lemma normalized_operators_are_single_witness :
  In (str "*") [str "+"; str "-"; str "*"; str "/"; str "("; str ")"].
Proof.
  apply (normalized_operators_are_single (str "2(-3)")
           [str "2"; str "*"; str "("; str "-3"; str ")"] (str "*")).
  - vm_compute; reflexivity.
  - right; left; reflexivity.
  - reflexivity.
Defined.

Section KeptInOrder.

Variable f : jsstring -> bool.
Hypothesis f_times : f (str "*") = false.
Hypothesis f_plus : f (str "+") = false.
Hypothesis f_minus : f (str "-") = false.
Hypothesis f_minus_one : f (str "-1") = false.
Hypothesis f_negated : forall x, f (negated x) = false.
Hypothesis f_number : forall y, isNumber (VString y) = true -> f y = false.

Lemma filter_zip (done : list jsstring) (x : jsstring) (rest : list jsstring) :
  filter f (rev (x :: done) ++ rest) = filter f (rev done ++ x :: rest).
Proof. rewrite <- zip_step; reflexivity. Qed.

Lemma filter_skip (l : list jsstring) (x : jsstring) (rest : list jsstring) :
  f x = false -> filter f (l ++ x :: rest) = filter f (l ++ rest).
Proof. intros Hx; rewrite !filter_app; cbn [filter]; rewrite Hx; reflexivity. Qed.

Lemma filter_skip_second (l : list jsstring) (x y : jsstring)
  (rest : list jsstring) :
  f y = false -> filter f (l ++ x :: y :: rest) = filter f (l ++ x :: rest).
Proof.
  intros Hy; rewrite !filter_app; cbn [filter]; rewrite Hy; reflexivity.
Qed.

Lemma parenthesesZip_filter (fuel : nat) :
  forall done rest r,
    parenthesesZip fuel done rest = Some r ->
    filter f r = filter f (rev done ++ rest).
Proof.
  induction fuel as [|fuel IH]; intros done rest r H.
  - destruct rest as [|x [|y rest]]; try discriminate; injection H as <-;
      reflexivity.
  - destruct rest as [|x [|y rest]]; try (injection H as <-; reflexivity).
    rewrite parenthesesZip_step in H.
    destruct (streq x (str ")") && streq y (str "(")).
    { apply IH in H; rewrite H, filter_zip.
      apply filter_skip_second; exact f_times. }
    destruct (streq x (str "(") && isNumber (before done)).
    { apply IH in H; rewrite H, !filter_zip.
      apply filter_skip; exact f_times. }
    destruct (streq x (str ")") && isNumber (VString y)).
    { apply IH in H; rewrite H, filter_zip.
      apply filter_skip_second; exact f_times. }
    apply IH in H; rewrite H, filter_zip; reflexivity.
Qed.

Lemma negativeZip_filter (fuel : nat) :
  forall done rest r,
    negativeZip fuel done rest = Some r ->
    filter f r = filter f (rev done ++ rest).
Proof.
  induction fuel as [|fuel IH]; intros done rest r H.
  - destruct rest; [|discriminate].
    injection H as <-; rewrite app_nil_r; reflexivity.
  - destruct rest as [|x rest1].
    + injection H as <-; rewrite app_nil_r; reflexivity.
    + simpl in H.
      destruct (streq x (str "-")) eqn:Ex; simpl andb in H.
      * apply streq_eq in Ex; subst x.
        rewrite (filter_skip (rev done) (str "-") rest1 f_minus).
        destruct (strictEq (next rest1) "(").
        { destruct (isNumber (before done)); apply IH in H; rewrite H, !filter_zip;
            rewrite ?(filter_skip _ (str "+")), ?(filter_skip _ (str "-1")),
              ?(filter_skip _ (str "*")) by assumption; reflexivity. }
        destruct (isNumber (next rest1)) eqn:En.
        { destruct rest1 as [|y rest2]; [discriminate|].
          simpl next in *; simpl tl in H.
          rewrite (filter_skip (rev done) y rest2 (f_number y En)).
          destruct (isNumber (before done) || strictEq (before done) ")");
            apply IH in H; rewrite H, ?filter_zip;
            rewrite ?(filter_skip _ (str "+")), ?(filter_skip _ (negated (VString y)))
              by auto; reflexivity. }
        apply IH in H; rewrite H, filter_zip.
        apply filter_skip; exact f_minus.
      * apply IH in H; rewrite H, filter_zip; reflexivity.
Qed.

Lemma fixParenthesesMultiplication_filter (tokenArray : list jsstring) :
  filter f (fixParenthesesMultiplication tokenArray) = filter f tokenArray.
Proof.
  unfold fixParenthesesMultiplication.
  destruct tokenArray as [|a0 rest]; [reflexivity|].
  destruct (fixParenthesesLoop_finishes (a0 :: rest)) as (r & E); rewrite E.
  change 1 with (len [a0]) in E.
  change (a0 :: rest) with (rev [a0] ++ rest) in E at 2.
  rewrite fixParenthesesLoop_zip in E.
  exact (parenthesesZip_filter _ _ _ _ E).
Qed.

Lemma fixNegativeNumbers_filter (tokenArray : list jsstring) :
  filter f (fixNegativeNumbers tokenArray) = filter f tokenArray.
Proof.
  unfold fixNegativeNumbers.
  destruct (fixNegativeLoop_finishes tokenArray) as (r & E); rewrite E.
  change 0 with (len (@nil jsstring)) in E.
  change tokenArray with (rev [] ++ tokenArray) in E at 2.
  rewrite fixNegativeLoop_zip in E.
  exact (negativeZip_filter _ _ _ _ E).
Qed.

End KeptInOrder.

Lemma isParenthesis_operator (t : jsstring) :
  isParenthesis t = true -> isOperator t = true.
Proof.
  unfold isParenthesis; rewrite orb_true_iff, !streq_eq.
  intros [-> | ->]; reflexivity.
Qed.

Lemma not_operator_not_parenthesis (t : jsstring) :
  isOperator t = false -> isParenthesis t = false.
Proof.
  intros H; destruct (isParenthesis t) eqn:E; [|reflexivity].
  apply isParenthesis_operator in E; congruence.
Qed.

Lemma number_not_parenthesis (y : jsstring) :
  isNumber (VString y) = true -> isParenthesis y = false.
Proof.
  intros H; destruct (isParenthesis y) eqn:E; [|reflexivity].
  unfold isParenthesis in E; rewrite orb_true_iff, !streq_eq in E.
  destruct E as [-> | ->]; discriminate H.
Qed.

(** X6: neither normalizing pass touches a parenthesis: on every token
    array the [(] and [)] tokens of the result are those of the argument,
    in the same order. *)
Theorem normalizers_keep_parentheses (tokenArray : list jsstring) :
  parentheses (fixParenthesesMultiplication tokenArray) = parentheses tokenArray /\
  parentheses (fixNegativeNumbers tokenArray) = parentheses tokenArray.
Proof.
  unfold parentheses; split.
  - apply fixParenthesesMultiplication_filter; reflexivity.
  - apply fixNegativeNumbers_filter; try reflexivity.
    + intros x; apply not_operator_not_parenthesis, negated_not_operator.
    + exact number_not_parenthesis.
Qed.

(** ** The converter on validated input *)

Lemma balanced_parentheses (tokenArray : list jsstring) :
  forall depth, balanced depth (parentheses tokenArray) = balanced depth tokenArray.
Proof.
  unfold parentheses, isParenthesis.
  induction tokenArray as [|t rest IH]; intros d; [reflexivity|].
  cbn [filter balanced].
  destruct (streq t (str "(")) eqn:E1; cbn [orb balanced].
  - rewrite E1; apply IH.
  - destruct (streq t (str ")")) eqn:E2; cbn [balanced].
    + rewrite E1, E2; destruct d; [reflexivity | apply IH].
    + apply IH.
Qed.

Lemma balanced_skip (l : list jsstring) :
  noParenthesis l ->
  forall depth rest, balanced depth (l ++ rest) = balanced depth rest.
Proof.
  induction 1 as [|t l Ht _ IH]; intros d rest; [reflexivity|].
  unfold isParenthesis in Ht; apply orb_false_iff in Ht; destruct Ht as [E1 E2].
  simpl; rewrite E1, E2; apply IH.
Qed.

Lemma checkParentheses_balanced (s : jsstring) :
  forall depth,
    checkParentheses s (Z.of_nat depth) = Returns 0 ->
    balanced depth (map (fun c => [c]) s) = true.
Proof.
  induction s as [|c s IH]; intros d H.
  - simpl in H; injection H as H; simpl.
    apply Nat.eqb_eq; lia.
  - simpl in H; cbn [map balanced].
    change (streq [c] (str "(")) with ((c =? 40)%N && true).
    change (streq [c] (str ")")) with ((c =? 41)%N && true).
    rewrite !andb_true_r.
    destruct (c =? 40)%N.
    + apply IH; rewrite <- H; f_equal; lia.
    + destruct (c =? 41)%N; [|apply IH; exact H].
      destruct (Z.of_nat d - 1 <? 0) eqn:En; [discriminate|].
      apply Z.ltb_ge in En; destruct d as [|d]; [lia|].
      apply IH; rewrite <- H; f_equal; lia.
Qed.

Lemma operatorFree_noParenthesis (t : jsstring) :
  operatorFree t -> noParenthesis (map (fun c => [c]) t).
Proof.
  induction 1 as [|c t Hc _ IH]; constructor; [|exact IH].
  apply not_operator_not_parenthesis; exact Hc.
Qed.

Lemma balanced_concat (tokens : list jsstring) :
  Forall (fun t => operatorToken t \/ numberToken t) tokens ->
  forall depth,
    balanced depth (map (fun c => [c]) (List.concat tokens)) =
    balanced depth tokens.
Proof.
  induction 1 as [|t tokens Ht _ IH]; intros d; [reflexivity|].
  destruct Ht as [(c & -> & Hc) | Hnum].
  - cbn [List.concat app map balanced].
    destruct (streq [c] (str "(")); [apply IH|].
    destruct (streq [c] (str ")")); [destruct d; [reflexivity | apply IH] | apply IH].
  - cbn [List.concat]; rewrite map_app.
    pose proof Hnum as (_ & Hfree & _).
    rewrite (balanced_skip _ (operatorFree_noParenthesis t Hfree)).
    pose proof (not_operator_not_parenthesis t
                  (plain_numberToken_not_operator t Hnum)) as Hp.
    unfold isParenthesis in Hp; apply orb_false_iff in Hp; destruct Hp as [E1 E2].
    cbn [balanced]; rewrite E1, E2; apply IH.
Qed.

Lemma validated_tokens_balanced (input : jsstring) (tokens : list jsstring) :
  validateInput input = Returns tt ->
  getArrayOfTokens input = Returns tokens ->
  balanced 0 tokens = true.
Proof.
  intros Hvalid Htokens.
  assert (Hcheck : checkParentheses input 0 = Returns 0).
  { unfold validateInput in Hvalid.
    destruct (checkParentheses input 0) as [t| |]; simpl in Hvalid;
      try discriminate.
    destruct (t =? 0) eqn:E; [|discriminate].
    apply Z.eqb_eq in E; subst; reflexivity. }
  rewrite <- checkParentheses_removeSpaces in Hcheck.
  pose proof Htokens as Hshape; unfold getArrayOfTokens in Hshape.
  pose proof (tokensLoop_concat _ _ _ _ Hshape) as Hconcat.
  apply tokensLoop_shape in Hshape; destruct Hshape as (HF & _).
  simpl in Hconcat; rewrite <- Hconcat in Hcheck.
  rewrite <- (balanced_concat tokens HF).
  apply (checkParentheses_balanced _ 0%nat); exact Hcheck.
Qed.

Lemma normalized_balanced (input : jsstring) (tokens : list jsstring) :
  validateInput input = Returns tt ->
  getArrayOfTokens input = Returns tokens ->
  balanced 0 (fixNegativeNumbers (fixParenthesesMultiplication tokens)) = true.
Proof.
  intros Hvalid Htokens.
  rewrite <- balanced_parentheses; unfold parentheses.
  rewrite fixNegativeNumbers_filter, fixParenthesesMultiplication_filter;
    try reflexivity.
  - fold (parentheses tokens); rewrite balanced_parentheses.
    exact (validated_tokens_balanced input tokens Hvalid Htokens).
  - intros x; apply not_operator_not_parenthesis, negated_not_operator.
  - exact number_not_parenthesis.
Qed.

Lemma geq_open (token : jsstring) :
  streq token (str "(") = false ->
  geq (precedence (str "(")) (precedence token) = false.
Proof.
  intros H; unfold precedence at 2; rewrite H.
  destruct (streq token (str "+")); [reflexivity|].
  destruct (streq token (str "-")); [reflexivity|].
  destruct (streq token (str "*")); [reflexivity|].
  destruct (streq token (str "/")); reflexivity.
Qed.

Lemma opened_cons (t : jsstring) (operatorStack : list jsstring) :
  opened (t :: operatorStack) =
  if streq t (str "(") then S (opened operatorStack) else opened operatorStack.
Proof. unfold opened; simpl; destruct (streq t (str "(")); reflexivity. Qed.

Lemma popToParenthesis_balanced (operatorStack : list jsstring) :
  forall postfixArray depth,
    opened operatorStack = S depth ->
    Forall (fun t => streq t (str ")") = false) operatorStack ->
    noParenthesis postfixArray ->
    exists stack' out',
      popToParenthesis operatorStack postfixArray = Returns (stack', out') /\
      opened stack' = depth /\
      Forall (fun t => streq t (str ")") = false) stack' /\
      noParenthesis out'.
Proof.
  induction operatorStack as [|top stack IH]; intros out d Hopen Hstack Hout;
    [discriminate|].
  rewrite opened_cons in Hopen; inversion Hstack as [|? ? Htop Hrest]; subst.
  simpl; destruct (streq top (str "(")) eqn:E.
  - exists stack, out; repeat split; auto; congruence.
  - apply IH; auto.
    apply Forall_app; split; [exact Hout|].
    constructor; [|constructor].
    unfold isParenthesis; rewrite E, Htop; reflexivity.
Qed.

Lemma popPrecedence_balanced (token : jsstring) (operatorStack : list jsstring) :
  streq token (str "(") = false ->
  forall postfixArray stack' out',
    popPrecedence token operatorStack postfixArray = (stack', out') ->
    Forall (fun t => streq t (str ")") = false) operatorStack ->
    noParenthesis postfixArray ->
    opened stack' = opened operatorStack /\
    Forall (fun t => streq t (str ")") = false) stack' /\
    noParenthesis out'.
Proof.
  intros Htoken.
  induction operatorStack as [|top stack IH]; intros out stack' out' H Hstack Hout.
  - injection H as <- <-; auto.
  - simpl in H; inversion Hstack as [|? ? Htop Hrest]; subst.
    destruct (geq (precedence top) (precedence token)) eqn:G.
    + assert (E : streq top (str "(") = false).
      { destruct (streq top (str "(")) eqn:E; [|reflexivity].
        apply streq_eq in E; subst top.
        rewrite (geq_open token Htoken) in G; discriminate. }
      destruct (IH _ _ _ H Hrest) as (Ho & Hs & Hn).
      { apply Forall_app; split; [exact Hout|].
        constructor; [|constructor].
        unfold isParenthesis; rewrite E, Htop; reflexivity. }
      rewrite opened_cons, E; auto.
    + injection H as <- <-; auto.
Qed.

Lemma opened_none (operatorStack : list jsstring) :
  opened operatorStack = 0%nat ->
  Forall (fun t => streq t (str "(") = false) operatorStack.
Proof.
  induction operatorStack as [|t stack IH]; [constructor|].
  rewrite opened_cons; destruct (streq t (str "(")) eqn:E; [discriminate|].
  intros H; constructor; auto.
Qed.

Lemma postfixLoop_balanced (tokenArray : list jsstring) :
  forall operatorStack postfixArray,
    balanced (opened operatorStack) tokenArray = true ->
    Forall (fun t => streq t (str ")") = false) operatorStack ->
    noParenthesis postfixArray ->
    exists result,
      postfixLoop tokenArray operatorStack postfixArray = Returns result /\
      noParenthesis result.
Proof.
  induction tokenArray as [|token rest IH]; intros stack out Hbal Hstack Hout.
  - simpl in Hbal; apply Nat.eqb_eq, opened_none in Hbal.
    exists (out ++ stack); split; [reflexivity|].
    apply Forall_app; split; [exact Hout|].
    rewrite Forall_forall in *; intros t Ht.
    unfold isParenthesis; rewrite (Hbal t Ht), (Hstack t Ht); reflexivity.
  - simpl postfixLoop; simpl in Hbal.
    destruct (isOperator token) eqn:Eop; simpl negb; cbv iota.
    + destruct (streq token (str "(")) eqn:E1.
      { apply IH; auto.
        - rewrite opened_cons, E1; exact Hbal.
        - constructor; [|exact Hstack].
          apply streq_eq in E1; subst; reflexivity. }
      destruct (streq token (str ")")) eqn:E2.
      { destruct (opened stack) as [|d] eqn:Ed; [discriminate|].
        destruct (popToParenthesis_balanced stack out d Ed Hstack Hout)
          as (stack' & out' & -> & Ho & Hs & Hn).
        simpl bind; apply IH; auto; rewrite Ho; exact Hbal. }
      destruct (popPrecedence token stack out) as [stack' out'] eqn:Ep.
      destruct (popPrecedence_balanced token stack E1 _ _ _ Ep Hstack Hout)
        as (Ho & Hs & Hn).
      apply IH; auto.
      rewrite opened_cons, E1, Ho; exact Hbal.
    + pose proof (not_operator_not_parenthesis token Eop) as Hp.
      pose proof Hp as Hp'; unfold isParenthesis in Hp'.
      apply orb_false_iff in Hp'; destruct Hp' as [E1 E2].
      rewrite E1, E2 in Hbal; apply IH; auto.
      apply Forall_app; split; [exact Hout | constructor; [exact Hp | constructor]].
Qed.

Lemma convertToPostfix_validated (input : jsstring) (tokens : list jsstring) :
  validateInput input = Returns tt ->
  getArrayOfTokens input = Returns tokens ->
  exists postfixArray,
    convertToPostfix input = Returns postfixArray /\
    noParenthesis postfixArray.
Proof.
  intros Hvalid Htokens.
  pose proof (normalized_balanced input tokens Hvalid Htokens) as Hbal.
  destruct (postfixLoop_balanced _ [] [] Hbal (Forall_nil _) (Forall_nil _))
    as (post & Hpost & Hno).
  exists post; unfold convertToPostfix, normalizedTokens.
  rewrite Htokens; simpl bind; split; assumption.
Qed.

(** X7: on an input that passes [validateInput] and is tokenized, the
    converter returns: the loop that pops up to [(] always finds one; and
    no parenthesis reaches the postfix array. *)
Theorem converter_returns_without_parentheses (input : jsstring)
  (tokens : list jsstring) :
  validateInput input = Returns tt ->
  getArrayOfTokens input = Returns tokens ->
  exists postfixArray,
    convertToPostfix input = Returns postfixArray /\
    forall t, In t postfixArray -> t <> str "(" /\ t <> str ")".
Proof.
  intros Hvalid Htokens.
  destruct (convertToPostfix_validated input tokens Hvalid Htokens)
    as (post & Hpost & Hno).
  exists post; split; [exact Hpost|].
  intros t Ht; unfold noParenthesis in Hno; rewrite Forall_forall in Hno.
  specialize (Hno t Ht); unfold isParenthesis in Hno.
  apply orb_false_iff in Hno; destruct Hno as [E1 E2].
  split; intros ->; discriminate.
Qed.

Lemma converter_returns_without_parentheses_witness :
  exists postfixArray,
    convertToPostfix (str "2((3-1)(4))") = Returns postfixArray /\
    forall t, In t postfixArray -> t <> str "(" /\ t <> str ")".
Proof.
  apply (converter_returns_without_parentheses (str "2((3-1)(4))")
           [str "2"; str "("; str "("; str "3"; str "-"; str "1"; str ")";
            str "("; str "4"; str ")"; str ")"]).
  - vm_compute; reflexivity.
  - vm_compute; reflexivity.
Defined.

(** ** The outcomes of an evaluation *)

Lemma operate_outcome (token : jsstring) (operation : value -> value -> result float) :
  operate token = Some operation ->
  forall x y,
    (exists r, operation x y = Returns r) \/
    operation x y = Throws CanNotDivideByZero.
Proof.
  unfold operate; intros H x y.
  destruct (streq token (str "+")); [injection H as <-; left; eauto|].
  destruct (streq token (str "-")); [injection H as <-; left; eauto|].
  destruct (streq token (str "*")); [injection H as <-; left; eauto|].
  destruct (streq token (str "/")); [|discriminate].
  injection H as <-; destruct (isZeroNumber x); [right | left]; eauto.
Qed.

Lemma evaluateLoop_outcome (postfixArray : list jsstring) :
  Forall (fun t => isOperator t = true -> operate t <> None) postfixArray ->
  forall postfixStack,
    (exists stack', evaluateLoop postfixArray postfixStack = Returns stack') \/
    evaluateLoop postfixArray postfixStack = Throws CanNotDivideByZero.
Proof.
  induction 1 as [|token rest Htoken _ IH]; intros stack; [left; eexists; reflexivity|].
  simpl; destruct (isOperator token) eqn:Eop; [|apply IH].
  destruct (pop stack) as [elementOne stack1].
  destruct (pop stack1) as [elementTwo stack2].
  destruct (operate token) as [operation|] eqn:E; [|exfalso; apply Htoken; auto].
  destruct (operate_outcome token operation E elementOne elementTwo)
    as [(r & ->) | ->]; [apply IH | right; reflexivity].
Qed.

Lemma plain_operation (t : jsstring) :
  plainToken t -> isParenthesis t = false ->
  isOperator t = true -> operate t <> None.
Proof.
  intros Hplain Hp Hop; specialize (Hplain Hop); simpl in Hplain.
  destruct Hplain as [<-|[<-|[<-|[<-|[<-|[<-|[]]]]]]]; discriminate.
Qed.

Lemma postfix_operations (input : jsstring) (postfixArray : list jsstring) :
  convertToPostfix input = Returns postfixArray ->
  noParenthesis postfixArray ->
  Forall (fun t => isOperator t = true -> operate t <> None) postfixArray.
Proof.
  intros Hpost Hno; unfold convertToPostfix in Hpost.
  destruct (normalizedTokens input) as [normalized| |] eqn:Hn; try discriminate.
  simpl in Hpost.
  pose proof (plain_normalized input normalized Hn) as Hplain.
  unfold noParenthesis in Hno; rewrite Forall_forall in *.
  intros t Ht; apply plain_operation; [|exact (Hno t Ht)].
  destruct (postfixLoop_tokens _ _ _ _ Hpost t Ht) as [H|[[]|[]]].
  exact (Hplain t H).
Qed.

Lemma evaluateExpression_cases (input : jsstring) :
  match evaluateExpression input with
  | Returns solution => is_nan solution = false
  | Throws e => e = InvalidInput \/ e = CanNotDivideByZero
  | Diverges => False
  end.
Proof.
  unfold evaluateExpression.
  destruct (validateInput_cases input) as [[-> _] | [Hvalid _]];
    [left; reflexivity|].
  rewrite Hvalid; simpl bind.
  destruct (getArrayOfTokens input) as [tokens|e|] eqn:Htokens.
  - destruct (convertToPostfix_validated input tokens Hvalid Htokens)
      as (post & Hpost & Hno).
    rewrite Hpost; simpl bind.
    destruct (evaluateLoop_outcome post (postfix_operations input post Hpost Hno) [])
      as [(stack' & ->) | ->]; [|right; reflexivity].
    simpl bind.
    destruct (negb (len stack' =? 1)); [left; reflexivity|]; simpl orb.
    unfold isNumber; simpl ToNumber.
    destruct (is_nan (roundedSolution (bottom stack'))) eqn:E;
      [left; reflexivity | exact E].
  - unfold getArrayOfTokens in Htokens.
    destruct (tokensLoop_throws _ _ _ _ Htokens) as [-> _].
    unfold convertToPostfix, normalizedTokens, getArrayOfTokens.
    rewrite Htokens; left; reflexivity.
  - exfalso; exact (getArrayOfTokens_ends input Htokens).
Qed.

(** X8: whatever the input, [evaluateExpression] ends in one of three
    ways: it returns a Number that is not NaN, or throws "Invalid Input",
    or throws "Can not divide by zero."; it never loops and never calls an
    entry that the [operate] table does not have. *)
Theorem evaluateExpression_outcome (input : jsstring) :
  (exists solution,
     evaluateExpression input = Returns solution /\ is_nan solution = false) \/
  evaluateExpression input = Throws InvalidInput \/
  evaluateExpression input = Throws CanNotDivideByZero.
Proof.
  pose proof (evaluateExpression_cases input) as H.
  destruct (evaluateExpression input) as [solution|e|].
  - left; exists solution; split; [reflexivity | exact H].
  - right; destruct H as [-> | ->]; [left | right]; reflexivity.
  - contradiction.
Qed.

(** ** What the converter does to the tokens *)

Lemma no_operands (operatorStack : list jsstring) :
  Forall (fun t => isOperator t = true) operatorStack ->
  filter isOperand operatorStack = [].
Proof.
  induction 1 as [|t stack Ht _ IH]; [reflexivity|].
  unfold isOperand in *; simpl; rewrite Ht; exact IH.
Qed.

Lemma popToParenthesis_operands (operatorStack : list jsstring) :
  forall postfixArray stack' out',
    popToParenthesis operatorStack postfixArray = Returns (stack', out') ->
    Forall (fun t => isOperator t = true) operatorStack ->
    filter isOperand out' = filter isOperand postfixArray /\
    Forall (fun t => isOperator t = true) stack'.
Proof.
  induction operatorStack as [|top stack IH]; intros out stack' out' H Hop;
    simpl in H; [discriminate|].
  inversion Hop as [|? ? Htop Hrest]; subst.
  destruct (streq top (str "(")).
  - injection H as <- <-; auto.
  - destruct (IH _ _ _ H Hrest) as [E Hs]; split; [|exact Hs].
    rewrite E, filter_app; unfold isOperand at 2; simpl.
    rewrite Htop; apply app_nil_r.
Qed.

Lemma popPrecedence_operands (token : jsstring) (operatorStack : list jsstring) :
  forall postfixArray stack' out',
    popPrecedence token operatorStack postfixArray = (stack', out') ->
    Forall (fun t => isOperator t = true) operatorStack ->
    filter isOperand out' = filter isOperand postfixArray /\
    Forall (fun t => isOperator t = true) stack'.
Proof.
  induction operatorStack as [|top stack IH]; intros out stack' out' H Hop;
    simpl in H.
  - injection H as <- <-; auto.
  - inversion Hop as [|? ? Htop Hrest]; subst.
    destruct (geq (precedence top) (precedence token)).
    + destruct (IH _ _ _ H Hrest) as [E Hs]; split; [|exact Hs].
      rewrite E, filter_app; unfold isOperand at 2; simpl.
      rewrite Htop; apply app_nil_r.
    + injection H as <- <-; auto.
Qed.

Lemma postfixLoop_operands (tokenArray : list jsstring) :
  forall operatorStack postfixArray result,
    postfixLoop tokenArray operatorStack postfixArray = Returns result ->
    Forall (fun t => isOperator t = true) operatorStack ->
    filter isOperand result =
    filter isOperand postfixArray ++ filter isOperand tokenArray.
Proof.
  induction tokenArray as [|token rest IH]; intros stack out result H Hop;
    simpl in H.
  - injection H as <-; rewrite filter_app, (no_operands stack Hop); reflexivity.
  - cbn [filter]; unfold isOperand at 3.
    destruct (isOperator token) eqn:Eop; simpl in H |- *.
    + destruct (streq token (str "(")).
      { apply IH in H; [exact H | constructor; assumption]. }
      destruct (streq token (str ")")).
      { destruct (popToParenthesis stack out) as [[stack' out']| |] eqn:E;
          simpl in H; try discriminate.
        destruct (popToParenthesis_operands _ _ _ _ E Hop) as [Eo Hs].
        apply IH in H; [|exact Hs]; rewrite H, Eo; reflexivity. }
      destruct (popPrecedence token stack out) as [stack' out'] eqn:E.
      destruct (popPrecedence_operands _ _ _ _ _ E Hop) as [Eo Hs].
      apply IH in H; [|constructor; assumption]; rewrite H, Eo; reflexivity.
    + apply IH in H; [|exact Hop].
      rewrite H, filter_app; unfold isOperand at 2; simpl; rewrite Eop; simpl.
      rewrite <- app_assoc; reflexivity.
Qed.

(** X9: the converter keeps the operands in their order: the tokens of
    the postfix array that are not operators are those of the normalized
    array, in the same order. *)
Theorem operands_keep_their_order (input : jsstring)
  (normalized postfixArray : list jsstring) :
  normalizedTokens input = Returns normalized ->
  convertToPostfix input = Returns postfixArray ->
  filter isOperand postfixArray = filter isOperand normalized.
Proof.
  intros Hn Hp; unfold convertToPostfix in Hp; rewrite Hn in Hp; simpl in Hp.
  exact (postfixLoop_operands _ _ _ _ Hp (Forall_nil _)).
Qed.

Lemma operands_keep_their_order_witness :
  filter isOperand [str "8"; str "2"; str "-3"; str "+"; str "4"; str "*"; str "/"] =
  filter isOperand [str "8"; str "/"; str "("; str "("; str "2"; str "+"; str "-3";
                    str ")"; str "*"; str "4"; str ")"].
Proof.
  apply (operands_keep_their_order (str "8/((2-3)4)")).
  - vm_compute; reflexivity.
  - vm_compute; reflexivity.
Defined.

Lemma withoutParentheses_app (l1 l2 : list jsstring) :
  withoutParentheses (l1 ++ l2) = withoutParentheses l1 ++ withoutParentheses l2.
Proof. apply filter_app. Qed.

Lemma withoutParentheses_cons (t : jsstring) (l : list jsstring) :
  withoutParentheses (t :: l) = withoutParentheses [t] ++ withoutParentheses l.
Proof. apply (withoutParentheses_app [t] l). Qed.

Lemma withoutParentheses_parenthesis (t : jsstring) :
  isParenthesis t = true -> withoutParentheses [t] = [].
Proof. intros H; unfold withoutParentheses; simpl; rewrite H; reflexivity. Qed.

Lemma popToParenthesis_kept (operatorStack : list jsstring) :
  forall postfixArray stack' out',
    popToParenthesis operatorStack postfixArray = Returns (stack', out') ->
    withoutParentheses out' ++ withoutParentheses stack' =
    withoutParentheses postfixArray ++ withoutParentheses operatorStack.
Proof.
  induction operatorStack as [|top stack IH]; intros out stack' out' H;
    simpl in H; [discriminate|].
  rewrite (withoutParentheses_cons top).
  destruct (streq top (str "(")) eqn:E.
  - injection H as <- <-.
    rewrite (withoutParentheses_parenthesis top); [reflexivity|].
    unfold isParenthesis; rewrite E; reflexivity.
  - rewrite (IH _ _ _ H), withoutParentheses_app, <- app_assoc; reflexivity.
Qed.

Lemma popPrecedence_kept (token : jsstring) (operatorStack : list jsstring) :
  forall postfixArray stack' out',
    popPrecedence token operatorStack postfixArray = (stack', out') ->
    withoutParentheses out' ++ withoutParentheses stack' =
    withoutParentheses postfixArray ++ withoutParentheses operatorStack.
Proof.
  induction operatorStack as [|top stack IH]; intros out stack' out' H;
    simpl in H.
  - injection H as <- <-; reflexivity.
  - destruct (geq (precedence top) (precedence token)).
    + rewrite (withoutParentheses_cons top).
      rewrite (IH _ _ _ H), withoutParentheses_app, <- app_assoc; reflexivity.
    + injection H as <- <-; reflexivity.
Qed.

Lemma Permutation_swap_middle {A} (a t s r : list A) :
  Permutation (a ++ t ++ s ++ r) (a ++ s ++ t ++ r).
Proof.
  apply Permutation_app_head; rewrite !app_assoc.
  apply Permutation_app_tail, Permutation_app_comm.
Qed.

Lemma postfixLoop_kept (tokenArray : list jsstring) :
  forall operatorStack postfixArray result,
    postfixLoop tokenArray operatorStack postfixArray = Returns result ->
    Permutation (withoutParentheses result)
      (withoutParentheses postfixArray ++ withoutParentheses operatorStack
       ++ withoutParentheses tokenArray).
Proof.
  induction tokenArray as [|token rest IH]; intros stack out result H;
    simpl in H.
  - injection H as <-; rewrite withoutParentheses_app, app_nil_r; reflexivity.
  - rewrite (withoutParentheses_cons token).
    destruct (isOperator token) eqn:Eop; simpl in H.
    + destruct (streq token (str "(")) eqn:E1.
      { apply IH in H; rewrite H, (withoutParentheses_cons token).
        rewrite (withoutParentheses_parenthesis token); [reflexivity|].
        unfold isParenthesis; rewrite E1; reflexivity. }
      destruct (streq token (str ")")) eqn:E2.
      { destruct (popToParenthesis stack out) as [[stack' out']| |] eqn:E;
          simpl in H; try discriminate.
        apply IH in H; rewrite H, app_assoc, (popToParenthesis_kept _ _ _ _ E).
        rewrite (withoutParentheses_parenthesis token), <- app_assoc;
          [reflexivity|].
        unfold isParenthesis; rewrite E2; apply orb_true_r. }
      destruct (popPrecedence token stack out) as [stack' out'] eqn:E.
      apply IH in H; rewrite H, (withoutParentheses_cons token), <- app_assoc.
      rewrite Permutation_swap_middle, app_assoc.
      rewrite (popPrecedence_kept _ _ _ _ _ E), <- app_assoc; reflexivity.
    + apply IH in H; rewrite H, withoutParentheses_app, <- app_assoc.
      apply Permutation_swap_middle.
Qed.

(** X10: the converter neither loses nor repeats a token: parentheses
    apart, the postfix array holds the tokens of the normalized array,
    each as many times. *)
Theorem converter_keeps_tokens (input : jsstring)
  (normalized postfixArray : list jsstring) :
  normalizedTokens input = Returns normalized ->
  convertToPostfix input = Returns postfixArray ->
  Permutation (withoutParentheses postfixArray) (withoutParentheses normalized).
Proof.
  intros Hn Hp; unfold convertToPostfix in Hp; rewrite Hn in Hp; simpl in Hp.
  exact (postfixLoop_kept _ _ _ _ Hp).
Qed.

Lemma converter_keeps_tokens_witness :
  Permutation
    (withoutParentheses [str "2"; str "3"; str "4"; str "*"; str "+"])
    (withoutParentheses [str "("; str "2"; str "+"; str "3"; str "*"; str "4"; str ")"]).
Proof.
  apply (converter_keeps_tokens (str "(2+3*4)")).
  - vm_compute; reflexivity.
  - vm_compute; reflexivity.
Defined.

(** ** The normalizing passes: ending, and running them again *)

(** X11: both splicing loops end on every token array, within two rounds
    for each token of the array they are given, although they lengthen the
    array while they scan it. *)
Theorem normalizing_loops_end (tokenArray : list jsstring) :
  (exists r,
     fixParenthesesLoop (2 * List.length tokenArray) 1 tokenArray = Some r /\
     fixParenthesesMultiplication tokenArray = r) /\
  (exists r,
     fixNegativeLoop (2 * List.length tokenArray) 0 tokenArray = Some r /\
     fixNegativeNumbers tokenArray = r).
Proof.
  split.
  - destruct (fixParenthesesLoop_finishes tokenArray) as (r & E).
    exists r; split; [exact E|].
    unfold fixParenthesesMultiplication; rewrite E; reflexivity.
  - destruct (fixNegativeLoop_finishes tokenArray) as (r & E).
    exists r; split; [exact E|].
    unfold fixNegativeNumbers; rewrite E; reflexivity.
Qed.

Lemma negativeZip_unchanged (fuel : nat) :
  forall done rest,
    ~ In (str "-") rest -> (List.length rest <= fuel)%nat ->
    negativeZip fuel done rest = Some (rev done ++ rest).
Proof.
  induction fuel as [|fuel IH]; intros done rest Hno L.
  - destruct rest; [rewrite app_nil_r; reflexivity | simpl in L; lia].
  - destruct rest as [|x rest1]; [rewrite app_nil_r; reflexivity|].
    simpl negativeZip.
    replace (streq x (str "-")) with false.
    + simpl andb; cbv iota; rewrite IH, <- zip_step;
        [reflexivity | intros H; apply Hno; right; exact H | simpl in L; lia].
    + symmetry; apply streq_neq; intros ->; apply Hno; left; reflexivity.
Qed.

Lemma fixNegativeNumbers_unchanged (tokenArray : list jsstring) :
  ~ In (str "-") tokenArray -> fixNegativeNumbers tokenArray = tokenArray.
Proof.
  intros Hno; unfold fixNegativeNumbers.
  change 0 with (len (@nil jsstring)).
  change tokenArray with (rev [] ++ tokenArray) at 2.
  rewrite fixNegativeLoop_zip, negativeZip_unchanged; [reflexivity | exact Hno | lia].
Qed.

(** X12: [fixNegativeNumbers] returns an array without [-] tokens as it
    is; so on an array in which every [-] is directly followed by a number
    or by [(], running it a second time changes nothing. *)
Theorem fixNegativeNumbers_again (tokenArray : list jsstring) :
  (~ In (str "-") tokenArray -> fixNegativeNumbers tokenArray = tokenArray) /\
  (everyMinusFollowed tokenArray = true ->
   fixNegativeNumbers (fixNegativeNumbers tokenArray) =
   fixNegativeNumbers tokenArray).
Proof.
  split; [apply fixNegativeNumbers_unchanged|].
  intros H; apply fixNegativeNumbers_unchanged, fixNegativeNumbers_no_minus.
  exact H.
Qed.

Lemma fixNegativeNumbers_again_witness :
  fixNegativeNumbers (fixNegativeNumbers [str "5"; str "-"; str "("; str "-"; str "3"; str ")"]) =
  fixNegativeNumbers [str "5"; str "-"; str "("; str "-"; str "3"; str ")"].
Proof.
  apply (proj2 (fixNegativeNumbers_again _)); vm_compute; reflexivity.
Defined.

Lemma specInsert_cons (x : jsstring) (rest : list jsstring) :
  specInsertMultiplication (x :: rest) =
  x :: (match rest with
        | y :: _ => if adjacent x y then [str "*"] else []
        | [] => []
        end) ++ specInsertMultiplication rest.
Proof. reflexivity. Qed.

Lemma adjacent_times_right (x : jsstring) : adjacent x (str "*") = false.
Proof.
  unfold adjacent; change (streq (str "*") (str "(")) with false.
  change (isNumber (VString (str "*"))) with false.
  rewrite !andb_false_r; reflexivity.
Qed.

Lemma adjacent_times_left (y : jsstring) : adjacent (str "*") y = false.
Proof. reflexivity. Qed.

Lemma specInsert_idempotent (tokenArray : list jsstring) :
  specInsertMultiplication (specInsertMultiplication tokenArray) =
  specInsertMultiplication tokenArray.
Proof.
  induction tokenArray as [|x rest IH]; [reflexivity|].
  destruct rest as [|y r]; [reflexivity|].
  rewrite (specInsert_cons x (y :: r)).
  rewrite (specInsert_cons y r) in IH |- *.
  set (tail := (match r with
                | z :: _ => if adjacent y z then [str "*"] else []
                | [] => []
                end) ++ specInsertMultiplication r) in *.
  destruct (adjacent x y) eqn:A; cbn [app].
  - rewrite (specInsert_cons x), adjacent_times_right; cbn [app].
    rewrite (specInsert_cons (str "*")), adjacent_times_left; cbn [app].
    rewrite IH; reflexivity.
  - rewrite (specInsert_cons x), A; cbn [app].
    rewrite IH; reflexivity.
Qed.

Lemma lastToken_app (l m : list jsstring) :
  m <> [] -> lastToken (l ++ m) = lastToken m.
Proof.
  intros Hm; unfold lastToken; rewrite len_app.
  replace (len l + len m - 1) with (len l + (len m - 1)) by lia.
  apply elem_app; destruct m; [contradiction|].
  rewrite len_cons; pose proof (len_nonneg m); lia.
Qed.

Lemma specInsert_lastToken (tokenArray : list jsstring) :
  lastToken (specInsertMultiplication tokenArray) = lastToken tokenArray.
Proof.
  induction tokenArray as [|x rest IH]; [reflexivity|].
  destruct rest as [|y r]; [reflexivity|].
  rewrite lastToken_cons, <- IH, (specInsert_cons x (y :: r)).
  rewrite (specInsert_cons y r).
  change (x :: ?l ++ ?m) with ((x :: l) ++ m).
  destruct (adjacent x y).
  - apply (lastToken_app [x; str "*"]); discriminate.
  - apply (lastToken_app [x]); discriminate.
Qed.

Lemma specInsert_first (tokenArray : list jsstring) (lit : string) :
  strictEq (elem (specInsertMultiplication tokenArray) 0) lit =
  strictEq (elem tokenArray 0) lit.
Proof. destruct tokenArray; reflexivity. Qed.

(** X13: on validated input, running [fixParenthesesMultiplication] on
    its own result changes nothing: no adjacency is left that asks for
    a [*]. *)
Theorem fixParenthesesMultiplication_again (input : jsstring)
  (tokens : list jsstring) :
  validateInput input = Returns tt ->
  getArrayOfTokens input = Returns tokens ->
  fixParenthesesMultiplication (fixParenthesesMultiplication tokens) =
  fixParenthesesMultiplication tokens.
Proof.
  intros Hvalid Htokens.
  destruct (validated_tokens_ends input tokens Hvalid Htokens) as [Hfirst Hlast].
  rewrite (fixParenthesesMultiplication_spec tokens Hfirst Hlast).
  rewrite fixParenthesesMultiplication_spec.
  - apply specInsert_idempotent.
  - rewrite specInsert_first; exact Hfirst.
  - rewrite specInsert_lastToken; exact Hlast.
Qed.

Lemma fixParenthesesMultiplication_again_witness :
  fixParenthesesMultiplication
    (fixParenthesesMultiplication [str "2"; str "("; str "3"; str ")"; str "("; str "4"; str ")"]) =
  fixParenthesesMultiplication [str "2"; str "("; str "3"; str ")"; str "("; str "4"; str ")"].
Proof.
  apply (fixParenthesesMultiplication_again (str "2(3)(4)")).
  - vm_compute; reflexivity.
  - vm_compute; reflexivity.
Defined.

(** ** The tokens of validated input *)

Lemma validated_characters (input : jsstring) :
  validateInput input = Returns tt ->
  forall c, In c (removeSpaces input) -> allowedCharacter c.
Proof.
  intros Hvalid c Hc.
  destruct (validateInput_cases input) as [[H _] | [_ Hok]]; [congruence|].
  unfold allowedCharacter.
  destruct (allowedElements_spec c) as [Hallowed _].
  destruct (includes (str "1234567890.()*/-+") [c]) eqn:E; [apply Hallowed; reflexivity|].
  exfalso; apply Hok; right; right; exists c; split; [exact Hc|].
  intros Ha; apply allowedElements_spec in Ha; congruence.
Qed.

Lemma allowed_operand_character (c : char) :
  allowedCharacter c -> isOperator [c] = false ->
  isDigit c = true \/ c = 46%N.
Proof.
  unfold allowedCharacter, isDigit.
  intros [H | [H | H]] Hop.
  - left; apply andb_true_iff; split; apply N.leb_le; lia.
  - right; exact H.
  - exfalso; destruct H as [->|[->|[->|[->|[->| ->]]]]]; discriminate Hop.
Qed.

(** X14: on validated input every number token is made of decimal digits
    and decimal points only (one point at most, none at the end), and
    every other token is one operator or parenthesis character. *)
Theorem validated_tokens_are_literals (input : jsstring)
  (tokens : list jsstring) (t : jsstring) :
  validateInput input = Returns tt ->
  getArrayOfTokens input = Returns tokens ->
  In t tokens ->
  operatorToken t \/
  (numberToken t /\ Forall (fun c => isDigit c = true \/ c = 46%N) t).
Proof.
  intros Hvalid Htokens Ht.
  pose proof Htokens as Hshape; unfold getArrayOfTokens in Hshape.
  pose proof (tokensLoop_concat _ _ _ _ Hshape) as Hconcat; simpl in Hconcat.
  apply tokensLoop_shape in Hshape; destruct Hshape as (HF & _).
  rewrite Forall_forall in HF.
  destruct (HF t Ht) as [Hop | Hnum]; [left; exact Hop | right].
  split; [exact Hnum|].
  destruct Hnum as (_ & Hfree & _).
  unfold operatorFree in Hfree; rewrite Forall_forall in *.
  intros c Hc; apply allowed_operand_character; [|exact (Hfree c Hc)].
  apply (validated_characters input Hvalid); rewrite <- Hconcat.
  apply in_concat; exists t; split; assumption.
Qed.

Lemma validated_tokens_are_literals_witness :
  operatorToken (str "12.5") \/
  (numberToken (str "12.5") /\
   Forall (fun c => isDigit c = true \/ c = 46%N) (str "12.5")).
Proof.
  apply (validated_tokens_are_literals (str "3*(12.5)")
           [str "3"; str "*"; str "("; str "12.5"; str ")"]).
  - vm_compute; reflexivity.
  - vm_compute; reflexivity.
  - right; right; right; left; reflexivity.
Defined.

(** ** Operands and operators on the evaluation stack *)

Lemma evaluateLoop_length (postfixArray : list jsstring) :
  forall postfixStack stack',
    evaluateLoop postfixArray postfixStack = Returns stack' ->
    (List.length postfixStack + List.length (filter isOperand postfixArray)
     <= List.length stack' + List.length (filter isOperator postfixArray))%nat.
Proof.
  induction postfixArray as [|token rest IH]; intros stack stack' H.
  - injection H as <-; simpl; lia.
  - simpl in H; cbn [filter]; unfold isOperand at 1.
    destruct (isOperator token); simpl negb; cbv iota.
    + destruct (operate token) as [operation|]; [|destruct stack as [|? [|? ?]]; discriminate].
      destruct stack as [|v1 [|v2 stack]]; simpl in H;
        (destruct (operation _ _) as [r| |]; simpl in H; try discriminate;
         apply IH in H; simpl in H |- *; lia).
    + apply IH in H; simpl in H |- *; lia.
Qed.

(** X15: every token pushes one value and an operator takes two away at
    most, so an evaluation leaves as many values as there are operands
    more than operators, at least; when the postfix array has two operands
    or more in excess of its operators, more than one value is left and
    [evaluateExpression] throws instead of returning a result. *)
Theorem surplus_operands_are_invalid (input : jsstring)
  (postfixArray : list jsstring) :
  convertToPostfix input = Returns postfixArray ->
  (List.length (filter isOperator postfixArray) + 2
   <= List.length (filter isOperand postfixArray))%nat ->
  evaluateExpression input = Throws InvalidInput \/
  evaluateExpression input = Throws CanNotDivideByZero.
Proof.
  intros Hpost Hsurplus.
  assert (Hno : forall solution, evaluateExpression input <> Returns solution).
  { intros solution; unfold evaluateExpression; rewrite Hpost.
    destruct (validateInput input); simpl bind; try discriminate.
    destruct (evaluateLoop postfixArray []) as [stack'| |] eqn:E; simpl bind;
      try discriminate.
    apply evaluateLoop_length in E; simpl in E.
    replace (len stack' =? 1) with false; [discriminate|].
    symmetry; apply Z.eqb_neq; unfold len; lia. }
  pose proof (evaluateExpression_cases input) as H.
  destruct (evaluateExpression input) as [solution|e|].
  - exfalso; exact (Hno solution eq_refl).
  - destruct H as [-> | ->]; [left | right]; reflexivity.
  - contradiction.
Qed.

Lemma surplus_operands_are_invalid_witness :
  evaluateExpression (str "(1)-(2)") = Throws InvalidInput \/
  evaluateExpression (str "(1)-(2)") = Throws CanNotDivideByZero.
Proof.
  apply (surplus_operands_are_invalid (str "(1)-(2)")
           [str "1"; str "-1"; str "2"; str "*"]).
  - vm_compute; reflexivity.
  - vm_compute; lia.
Defined.
